(** * A credential store and a PDF conversion front end

    Shallow embedding of [database.py] (the [users] table and the five
    operations on it, the password reset tokens) and of [main.py] (the
    direct password reset handler, registration, login, and the conversion
    and download endpoints).

    - The [users] table is a list of rows in insertion order, together with
      the AUTOINCREMENT counter SQLite keeps in [sqlite_sequence].
    - [passlib.hash.bcrypt] is an external library: it is an interface
      ([Bcrypt]) whose salt is an explicit argument of [bcrypt_hash], and
      whose two functions return or raise.
    - An operation of [database.py] gives what it returns, or the exception
      that leaves it, and the store it leaves.
    - The handlers of [main.py] are programs over the calls they make to
      [database.py]; running one yields the response, the final store and
      the sequence of calls made. No handler catches an exception.
    - The converter process and the file system are the environment of the
      conversion endpoint. *)

From stdpp Require Import base option list strings gmap sorting.
From Stdlib Require Import ZArith Ascii.

Local Open Scope string_scope.
Local Open Scope Z_scope.

(** ** The password hashing interface *)

(** What a call gives: the value it returns, or the exception that leaves
    it. *)
Inductive result (A : Type) : Type :=
| Returned (a : A)
| Raised (exception : string).

Arguments Returned {A} a.
Arguments Raised {A} exception.

(** [passlib.hash.bcrypt]: [bcrypt.hash(secret)] draws a random salt and
    returns the encoded hash; [bcrypt.verify(secret, hash)] checks a secret
    against an encoded hash. Either may raise. *)
Class Bcrypt := {
  salt : Type;
  bcrypt_hash : salt → string → result string;
  bcrypt_verify : string → string → result bool
}.

(** A hash verifies against the secret it was made from. *)
Definition bcrypt_correct `{Bcrypt} : Prop :=
  ∀ s p h, bcrypt_hash s p = Returned h → bcrypt_verify p h = Returned true.

(** An instance with the two behaviours of passlib's bcrypt that its
    callers meet: a secret with a NUL byte is refused with
    [PasswordValueError], and only the first 72 bytes of a secret are
    read. The digest is left out: the salt is one character and a hash is
    the salt followed by those bytes. *)
Fixpoint has_nul (secret : string) : bool :=
  match secret with
  | EmptyString => false
  | String c rest => bool_decide (c = Ascii.zero) || has_nul rest
  end.

Definition truncate72 (secret : string) : string :=
  String.substring 0 72 secret.

Definition passlib_hash (s : ascii) (secret : string) : result string :=
  if has_nul secret then Raised "PasswordValueError"
  else Returned (String s (truncate72 secret)).

Definition passlib_verify (secret hash : string) : result bool :=
  if has_nul secret then Raised "PasswordValueError"
  else
    match hash with
    | String _ digest => Returned (bool_decide (truncate72 secret = digest))
    | EmptyString => Raised "ValueError"
    end.

#[local] Instance passlib_bcrypt : Bcrypt :=
  {| salt := ascii; bcrypt_hash := passlib_hash; bcrypt_verify := passlib_verify |}.

(** ** database.py *)

Module Database.

(** A row of [users (id, username, email, password)]. *)
Record user := User {
  user_id : Z;
  user_username : string;
  user_email : string;
  user_password : string
}.

#[global] Instance user_eq_dec : EqDecision user.
Proof. solve_decision. Defined.

(** The database file once its tables exist. [password_reset_tokens] is
    not touched by any operation below and is left out. *)
Record db := Db {
  users : list user;
  sqlite_sequence : Z
}.

Definition empty_db : db := {| users := []; sqlite_sequence := 0 |}.

(** [init_db]: CREATE TABLE IF NOT EXISTS. [None] is a file without tables. *)
Definition init_db (file : option db) : db :=
  match file with
  | None => empty_db
  | Some d => d
  end.

(** Values held by the dictionaries the lookups return. *)
Inductive value :=
| VInt (n : Z)
| VStr (s : string).

#[global] Instance value_eq_dec : EqDecision value.
Proof. solve_decision. Defined.

(** SELECT ... WHERE P, then [cursor.fetchone()]. *)
Definition fetchone (P : user → Prop) `{∀ u, Decision (P u)}
    (t : list user) : option user :=
  head (filter P t).

(** The largest rowid of the table, 0 when it is empty. *)
Definition max_rowid (t : list user) : Z :=
  foldr (λ u m, Z.max (user_id u) m) 0 t.

(** A UNIQUE column already holds the value to insert. *)
Definition unique_conflict (username email : string) (t : list user) : bool :=
  bool_decide (Exists (λ u, user_username u = username ∨ user_email u = email) t).

(** INSERT INTO users (username, email, password) VALUES (?, ?, ?).
    [None] is [sqlite3.IntegrityError]. *)
Definition insert_user (username email hashed_password : string)
    (d : db) : option db :=
  if unique_conflict username email (users d) then None
  else
    let rowid := Z.max (sqlite_sequence d) (max_rowid (users d)) + 1 in
    Some {| users := users d ++ [User rowid username email hashed_password];
            sqlite_sequence := rowid |}.

Definition set_password (hashed_password : string) (u : user) : user :=
  User (user_id u) (user_username u) (user_email u) hashed_password.

(** UPDATE users SET password = ? WHERE email = ?, with [cursor.rowcount]. *)
Definition update_password (hashed_password email : string)
    (t : list user) : list user * Z :=
  (map (λ u, if decide (user_email u = email)
             then set_password hashed_password u else u) t,
   Z.of_nat (length (filter (λ u, user_email u = email) t))).

Definition user_dict (u : user) : gmap string value :=
  {[ "id" := VInt (user_id u);
     "username" := VStr (user_username u);
     "email" := VStr (user_email u) ]}.

Section Operations.
Context `{Bcrypt}.

(** [bcrypt.hash] is called inside the [try], and only
    [sqlite3.IntegrityError] is caught: another exception leaves the
    function, after the [finally] has closed the connection. *)
Definition create_user (s : salt) (username email password : string)
    (d : db) : result bool * db :=
  let d := init_db (Some d) in
  match bcrypt_hash s password with
  | Raised exception => (Raised exception, d)
  | Returned hashed_password =>
      match insert_user username email hashed_password d with
      | Some d' => (Returned true, d')
      | None => (Returned false, d)
      end
  end.

(** [row and bcrypt.verify(password, row[0])]: bcrypt is called only when a
    row was fetched. *)
Definition verify_user (username password : string)
    (d : db) : result bool * db :=
  let d := init_db (Some d) in
  let row := fetchone (λ u, user_username u = username) (users d) in
  match row with
  | Some u =>
      match bcrypt_verify password (user_password u) with
      | Returned true => (Returned true, d)
      | Returned false => (Returned false, d)
      | Raised exception => (Raised exception, d)
      end
  | None => (Returned false, d)
  end.

Definition get_user_by_email (email : string)
    (d : db) : option (gmap string value) * db :=
  let d := init_db (Some d) in
  let row := fetchone (λ u, user_email u = email) (users d) in
  match row with
  | Some u => (Some (user_dict u), d)
  | None => (None, d)
  end.

Definition get_user_by_username (username : string)
    (d : db) : option (gmap string value) * db :=
  let d := init_db (Some d) in
  let row := fetchone (λ u, user_username u = username) (users d) in
  match row with
  | Some u => (Some (user_dict u), d)
  | None => (None, d)
  end.

(** [bcrypt.hash] is called before the UPDATE, outside any [try]. *)
Definition update_user_password (s : salt) (email new_password : string)
    (d : db) : result bool * db :=
  let d := init_db (Some d) in
  match bcrypt_hash s new_password with
  | Raised exception => (Raised exception, d)
  | Returned hashed_password =>
      let '(t, rowcount) := update_password hashed_password email (users d) in
      let success := bool_decide (rowcount > 0) in
      (Returned success, {| users := t; sqlite_sequence := sqlite_sequence d |})
  end.

End Operations.

End Database.

(** ** main.py *)

Module Main.
Import Database.

(** What an endpoint returns. [Uncaught] is an exception that leaves the
    handler. *)
Inductive response :=
| TemplateResponse (name : string) (context : gmap string string)
| RedirectResponse (url : string) (status_code : Z)
| JSONResponse (content : gmap string string) (status_code : Z)
| FileResponse (path filename : string)
| Uncaught (exception : string).

(** *** Handlers as programs over the calls to database.py *)

Inductive dbE : Type → Type :=
| CreateUser (username email password : string) : dbE bool
| VerifyUser (username password : string) : dbE bool
| GetUserByEmail (email : string) : dbE (option (gmap string value))
| GetUserByUsername (username : string) : dbE (option (gmap string value))
| UpdateUserPassword (email new_password : string) : dbE bool.

Inductive handler (R : Type) : Type :=
| Ret (r : R)
| Call {X : Type} (e : dbE X) (k : X → handler R).

Arguments Ret {R} r.
Arguments Call {R X} e k.

Fixpoint bind {A B : Type} (m : handler A) (f : A → handler B) : handler B :=
  match m with
  | Ret a => f a
  | Call e k => Call e (λ x, bind (k x) f)
  end.

Definition call {X : Type} (e : dbE X) : handler X := Call e Ret.

Notation "x ←' m ; k" := (bind m (λ x, k))
  (at level 20, m at level 100, k at level 200, only parsing).

(** A call that was made, whatever it returned. *)
Definition called : Type := sigT dbE.

(** Python truth value of [None] or a dictionary. *)
Definition truthy (o : option (gmap string value)) : bool :=
  match o with
  | None => false
  | Some d => bool_decide (d ≠ ∅)
  end.

Definition forgot_password (error : string) : response :=
  TemplateResponse "forgot_password.html" {[ "error" := error ]}.

Definition register_user (username email password : string) : handler response :=
  ok ←' call (CreateUser username email password);
  if ok : bool
  then Ret (RedirectResponse "/login?message=registration_success" 303)
  else Ret (TemplateResponse "register.html"
              {[ "error" := "Username or Email already exists" ]}).

Definition login (username password : string) : handler response :=
  ok ←' call (VerifyUser username password);
  if ok : bool
  then Ret (RedirectResponse ("/dashboard?username=" +:+ username) 303)
  else Ret (TemplateResponse "login.html"
              {[ "error" := "Invalid username or password" ]}).

Definition reset_password_direct
    (username_or_email new_password confirm_new_password : string)
    : handler response :=
  if bool_decide (new_password ≠ confirm_new_password)
  then Ret (forgot_password "Passwords do not match.")
  else
    user ←' call (GetUserByEmail username_or_email);
    user ←' (if negb (truthy user)
             then call (GetUserByUsername username_or_email)
             else Ret user);
    if truthy user then
      match user ≫= (.!! "email") with
      | Some (VStr email) =>
          ok ←' call (UpdateUserPassword email new_password);
          if ok : bool
          then Ret (RedirectResponse "/login?message=password_reset_success" 303)
          else Ret (forgot_password "Failed to reset password. Please try again.")
      | _ => Ret (Uncaught "KeyError")
      end
    else Ret (forgot_password "No account found with that username or email.").

Section Run.
Context `{Bcrypt}.

(** One call to database.py, with the salt bcrypt draws during it. *)
Definition perform {X : Type} (e : dbE X) (s : salt) (d : db) : result X * db :=
  match e with
  | CreateUser username email password => create_user s username email password d
  | VerifyUser username password => verify_user username password d
  | GetUserByEmail email =>
      let '(user, d) := get_user_by_email email d in (Returned user, d)
  | GetUserByUsername username =>
      let '(user, d) := get_user_by_username username d in (Returned user, d)
  | UpdateUserPassword email new_password =>
      update_user_password s email new_password d
  end.

(** Running a handler on a store: the [n]-th call draws the salt [rng n].
    The result is the response, the final store and the calls made. An
    exception raised by a call is caught nowhere: it ends the handler. *)
Fixpoint run (h : handler response) (rng : nat → salt) (d : db)
    : response * db * list called :=
  match h with
  | Ret r => (r, d, [])
  | Call e k =>
      match perform e (rng 0%nat) d with
      | (Returned x, d1) =>
          let '(r, d2, calls) := run (k x) (λ n, rng (S n)) d1 in
          (r, d2, existT _ e :: calls)
      | (Raised exception, d1) => (Uncaught exception, d1, [existT _ e])
      end
  end.

End Run.

(** *** The conversion endpoints *)

(** How [subprocess.run] ends: the process ran and exited with a return
    code, or the binary was not found. *)
Inductive run_result :=
| Exited (returncode : Z)
| FileNotFoundError.

Definition UPLOAD_DIR : string := "uploads".

Fixpoint endswith_sep (s : string) : bool :=
  match s with
  | EmptyString => false
  | String c EmptyString => bool_decide (c = "/"%char)
  | String _ s' => endswith_sep s'
  end.

(** [os.path.join] on two components (posixpath). *)
Definition path_join (a b : string) : string :=
  if String.prefix "/" b then b
  else if bool_decide (a = "") || endswith_sep a then a +:+ b
  else a +:+ "/" +:+ b.

(** [os.path.exists] on a file system given as the paths it holds. *)
Definition path_exists (path : string) (fs : gmap string string) : bool :=
  bool_decide (is_Some (fs !! path)).

Definition failed (message : string) : response :=
  JSONResponse {[ "status" := "failed"; "message" := message ]} 500.

Section Convert.
(** The converter: from its command line and the file system to how the
    process ends and the file system it leaves. *)
Variable libreoffice :
  list string → gmap string string → run_result * gmap string string.

Definition convert_command (input_path : string) : list string :=
  ["libreoffice"; "--headless"; "--convert-to"; "pdf"; input_path;
   "--outdir"; UPLOAD_DIR].

(** [file_id] is [str(uuid.uuid4())], [content] the bytes uploaded. *)
Definition convert_to_pdf (file_id content : string)
    (fs : gmap string string) : response * gmap string string :=
  let input_path := path_join UPLOAD_DIR (file_id +:+ ".docx") in
  let output_path := path_join UPLOAD_DIR (file_id +:+ ".pdf") in
  let fs := <[input_path := content]> fs in
  match libreoffice (convert_command input_path) fs with
  | (Exited returncode, fs) =>
      if bool_decide (returncode ≠ 0)
      then (failed "PDF conversion failed.", fs)
      else if path_exists output_path fs
      then (JSONResponse {[ "status" := "completed"; "file_id" := file_id ]} 200, fs)
      else (failed "PDF output file not found after conversion.", fs)
  | (FileNotFoundError, fs) =>
      (failed "Server error: PDF converter not found.", fs)
  end.

End Convert.

Definition download_pdf (file_id : string) (fs : gmap string string) : response :=
  let pdf_path := path_join UPLOAD_DIR (file_id +:+ ".pdf") in
  if path_exists pdf_path fs
  then FileResponse pdf_path "converted.pdf"
  else JSONResponse {[ "error" := "File not found" ]} 404.

End Main.

(** ** The uniqueness invariant and the reachable stores *)

Module Invariant.
Import Database.

(** The two UNIQUE columns of [users]. *)
Definition unique_users (d : db) : Prop :=
  NoDup (user_username <$> users d) ∧ NoDup (user_email <$> users d).

(** What identifies a user: everything but the password. *)
Definition identity (u : user) : Z * string * string :=
  (user_id u, user_username u, user_email u).

(** The operations of the store, as requests. *)
Inductive operation :=
| OpCreateUser (username email password : string)
| OpVerifyUser (username password : string)
| OpGetUserByEmail (email : string)
| OpGetUserByUsername (username : string)
| OpUpdateUserPassword (email new_password : string).

Definition exec `{Bcrypt} (o : operation) (s : salt) (d : db) : db :=
  match o with
  | OpCreateUser username email password =>
      snd (create_user s username email password d)
  | OpVerifyUser username password => snd (verify_user username password d)
  | OpGetUserByEmail email => snd (get_user_by_email email d)
  | OpGetUserByUsername username => snd (get_user_by_username username d)
  | OpUpdateUserPassword email new_password =>
      snd (update_user_password s email new_password d)
  end.

(** The stores the application can be in: [init_db] on a fresh file, then
    any sequence of operations. *)
Inductive reachable `{Bcrypt} : db → Prop :=
| reachable_init : reachable (init_db None)
| reachable_exec o s d : reachable d → reachable (exec o s d).

End Invariant.

(** ** A concrete store *)

Module Example.
Import Database Main.

(** Two registrations on a fresh file, under [passlib_bcrypt]. The second
    user takes the email of the first as username. *)
Definition registered : db :=
  let d := init_db None in
  let d := (create_user "s"%char "alice" "alice@example.org" "wonderland" d).2 in
  (create_user "t"%char "alice@example.org" "bob@example.org" "builder" d).2.

Definition alice : user := User 1 "alice" "alice@example.org" "swonderland".
Definition bob : user := User 2 "alice@example.org" "bob@example.org" "tbuilder".

Definition rng : nat → @salt passlib_bcrypt := λ _, "z"%char.

(** A password with a NUL byte, and two passwords of 73 bytes that differ
    in the last one. *)
Definition nul_password : string := String "a" (String Ascii.zero "b").

Definition seventy_two : string :=
  "aaaaaaaaaaaaaaaaaaaaaaaaaaaaaaaaaaaaaaaaaaaaaaaaaaaaaaaaaaaaaaaaaaaaaaaa".

Definition long_one : string := seventy_two +:+ "1".
Definition long_two : string := seventy_two +:+ "2".

(** alice registered with [long_one] on a fresh file. *)
Definition long_registered : db :=
  (create_user "s"%char "alice" "alice@example.org" long_one (init_db None)).2.

(** A converter that always writes its output, and one that is missing. *)
Definition converter_ok (args : list string) (fs : gmap string string)
    : run_result * gmap string string :=
  (Exited 0, <[ "uploads/7f3c.pdf" := "%PDF" ]> fs).

Definition converter_missing (args : list string) (fs : gmap string string)
    : run_result * gmap string string :=
  (FileNotFoundError, fs).

End Example.

(** ** The primary key *)

Module Keys.
Import Database.

(** [id INTEGER PRIMARY KEY AUTOINCREMENT]: the ids of the table grow with
    the order of insertion, are positive, and none is above the counter. *)
Definition ascending_ids (d : db) : Prop :=
  StronglySorted Z.lt (user_id <$> users d)
  ∧ Forall (λ i, 0 < i ≤ sqlite_sequence d) (user_id <$> users d).

End Keys.

(** ** Two answers of main.py, named *)

Module Answers.
Import Main.

Definition reset_done : response :=
  RedirectResponse "/login?message=password_reset_success" 303.

Definition login_failed : response :=
  TemplateResponse "login.html" {[ "error" := "Invalid username or password" ]}.

End Answers.

(** ** database.py: the password reset tokens *)

Module Tokens.

(** A row of [password_reset_tokens (id, email, token, expires_at, used)].
    A [datetime] is its position on the time line, an integer: the sqlite3
    adapter stores [expires_at] in ISO format and [fromisoformat] reads the
    same instant back. [used] is the integer SQLite holds, 0 by default. *)
Record reset_token := ResetToken {
  token_id : Z;
  token_email : string;
  token_token : string;
  token_expires_at : Z;
  token_used : Z
}.

(** The [password_reset_tokens] table of the database file, with its
    AUTOINCREMENT counter. *)
Record token_db := TokenDb {
  tokens : list reset_token;
  token_sequence : Z
}.

Definition empty_tokens : token_db := {| tokens := []; token_sequence := 0 |}.

(** [init_db], on this table: CREATE TABLE IF NOT EXISTS. *)
Definition init_db (file : option token_db) : token_db :=
  match file with
  | None => empty_tokens
  | Some t => t
  end.

Definition set_used (r : reset_token) : reset_token :=
  ResetToken (token_id r) (token_email r) (token_token r) (token_expires_at r) 1.

Definition max_token_id (l : list reset_token) : Z :=
  foldr (λ r m, Z.max (token_id r) m) 0 l.

(** UPDATE password_reset_tokens SET used = 1 WHERE email = ? AND used = 0. *)
Definition supersede (email : string) (l : list reset_token) : list reset_token :=
  (λ r, if decide (token_email r = email ∧ token_used r = 0)
        then set_used r else r) <$> l.

(** The UPDATE and the INSERT run in one transaction. When the INSERT hits
    the UNIQUE token, the exception is caught, nothing is committed and
    closing the connection drops the UPDATE as well. *)
Definition save_password_reset_token (email token : string) (expires_at : Z)
    (t : token_db) : bool * token_db :=
  let t := init_db (Some t) in
  let superseded := supersede email (tokens t) in
  if bool_decide (Exists (λ r, token_token r = token) superseded)
  then (false, t)
  else
    let rowid := Z.max (token_sequence t) (max_token_id superseded) + 1 in
    (true, {| tokens := superseded ++ [ResetToken rowid email token expires_at 0];
              token_sequence := rowid |}).

(** [now] is what [datetime.datetime.now()] returns during the call. *)
Definition verify_password_reset_token (token : string) (now : Z)
    (t : token_db) : option string * token_db :=
  let t := init_db (Some t) in
  let row := head (filter (λ r, token_token r = token) (tokens t)) in
  match row with
  | Some r =>
      if bool_decide (token_used r = 0) && bool_decide (now < token_expires_at r)
      then (Some (token_email r), t)
      else (None, t)
  | None => (None, t)
  end.

Definition invalidate_token (token : string) (t : token_db) : bool * token_db :=
  let t := init_db (Some t) in
  let rows := (λ r, if decide (token_token r = token) then set_used r else r)
                <$> tokens t in
  let rowcount := Z.of_nat (length (filter (λ r, token_token r = token) (tokens t))) in
  let success := bool_decide (rowcount > 0) in
  (success, {| tokens := rows; token_sequence := token_sequence t |}).

(** The three operations, as requests. *)
Inductive token_operation :=
| OpSave (email token : string) (expires_at : Z)
| OpVerify (token : string) (now : Z)
| OpInvalidate (token : string).

Definition token_exec (o : token_operation) (t : token_db) : token_db :=
  match o with
  | OpSave email token expires_at =>
      (save_password_reset_token email token expires_at t).2
  | OpVerify token now => (verify_password_reset_token token now t).2
  | OpInvalidate token => (invalidate_token token t).2
  end.

Inductive token_reachable : token_db → Prop :=
| token_reachable_init : token_reachable (init_db None)
| token_reachable_exec o t :
    token_reachable t → token_reachable (token_exec o t).

(** The UNIQUE token column. *)
Definition unique_tokens (t : token_db) : Prop :=
  NoDup (token_token <$> tokens t).

(** At most one unused token per email. *)
Definition one_unused_per_email (t : token_db) : Prop :=
  NoDup (token_email <$> filter (λ r, token_used r = 0) (tokens t)).

(** What [invalidate_token] does to a row. *)
Definition mark_token (token : string) (r : reset_token) : reset_token :=
  if decide (token_token r = token) then set_used r else r.

(** The table holds the token in a row that is marked used, and in no
    other row. *)
Definition spent (token : string) (t : token_db) : Prop :=
  unique_tokens t
  ∧ ∃ r, r ∈ tokens t ∧ token_token r = token ∧ token_used r ≠ 0.

End Tokens.

(** ** The last character of a path *)

Module Paths.

Fixpoint last_char (s : string) : option ascii :=
  match s with
  | EmptyString => None
  | String c EmptyString => Some c
  | String _ s' => last_char s'
  end.

End Paths.

(** ** A concrete token table *)

Module TokenExample.
Import Tokens.

(** A token for alice that expires at 100, then a second one that expires
    at 200, then a token for bob. *)
Definition issued : token_db :=
  (save_password_reset_token "alice@example.org" "tok-1" 100 (init_db None)).2.

Definition reissued : token_db :=
  (save_password_reset_token "alice@example.org" "tok-2" 200 issued).2.

Definition shared : token_db :=
  (save_password_reset_token "bob@example.org" "tok-3" 150 reissued).2.

Definition first_token : reset_token :=
  ResetToken 1 "alice@example.org" "tok-1" 100 1.

End TokenExample.

(** * Properties *)

Import Database Invariant Main.

(** *** Queries *)

Section Fetch.
Context (P : user → Prop) `{∀ u, Decision (P u)}.

Lemma fetchone_Some t u : fetchone P t = Some u → u ∈ t ∧ P u.
Proof.
  unfold fetchone. intros Hh.
  apply head_Some_elem_of in Hh.
  by apply list_elem_of_filter in Hh as [? ?].
Qed.

Lemma fetchone_None t : fetchone P t = None ↔ ∀ u, u ∈ t → ¬ P u.
Proof.
  unfold fetchone. rewrite head_None. split.
  - intros Hnil u Hu HP.
    assert (u ∈ filter P t) as Hin by (apply list_elem_of_filter; done).
    rewrite Hnil in Hin. by apply not_elem_of_nil in Hin.
  - intros Hall. induction t as [|v t IH]; [done|].
    rewrite filter_cons. destruct (decide (P v)) as [HP|_].
    + exfalso. apply (Hall v); [left | done].
    + apply IH. intros u Hu. apply Hall. by right.
Qed.
End Fetch.

(** Under a UNIQUE column [f], the row fetched by the value of [f] is the
    row of the table that holds it. *)
Lemma fetchone_unique {K : Type} `{EqDecision K} (f : user → K) t u :
  NoDup (f <$> t) → u ∈ t → fetchone (λ v, f v = f u) t = Some u.
Proof.
  unfold fetchone. induction t as [|v t IH]; intros Hnd Hu.
  - by apply not_elem_of_nil in Hu.
  - rewrite fmap_cons in Hnd. apply NoDup_cons in Hnd as [Hv Hnd].
    rewrite filter_cons. apply elem_of_cons in Hu as [->|Hu].
    + by rewrite decide_True.
    + rewrite decide_False; [by apply IH|].
      intros Heq. apply Hv. rewrite Heq. by apply list_elem_of_fmap_2.
Qed.

Lemma unique_conflict_true username email t :
  unique_conflict username email t = true ↔
  ∃ u, u ∈ t ∧ (user_username u = username ∨ user_email u = email).
Proof.
  unfold unique_conflict. rewrite bool_decide_eq_true. apply Exists_exists.
Qed.

Lemma unique_conflict_false username email t :
  unique_conflict username email t = false ↔
  ∀ u, u ∈ t → user_username u ≠ username ∧ user_email u ≠ email.
Proof.
  unfold unique_conflict. rewrite bool_decide_eq_false, Exists_exists. split.
  - intros Hno u Hu. split; intros Heq; apply Hno; exists u; auto.
  - intros Hall (u & Hu & [Heq|Heq]); by destruct (Hall u Hu).
Qed.

(** *** The UPDATE statement *)

Lemma update_password_rowcount hashed email t :
  (update_password hashed email t).2 > 0 ↔ ∃ u, u ∈ t ∧ user_email u = email.
Proof.
  unfold update_password. simpl. split.
  - intros Hpos.
    destruct (filter (λ u, user_email u = email) t) as [|u l] eqn:Hf;
      [simpl in Hpos; lia|].
    exists u. apply and_comm, (list_elem_of_filter (λ u, user_email u = email)).
    rewrite Hf. left.
  - intros (u & Hu & Heq).
    assert (u ∈ filter (λ u, user_email u = email) t) as Hin
      by (by apply list_elem_of_filter).
    destruct (filter (λ u, user_email u = email) t); simpl; [|lia].
    by apply not_elem_of_nil in Hin.
Qed.


Lemma update_password_elem hashed email t u :
  u ∈ t →
  (if decide (user_email u = email) then set_password hashed u else u)
    ∈ (update_password hashed email t).1.
Proof.
  intros Hu. unfold update_password. simpl.
  apply list_elem_of_fmap. by exists u.
Qed.

Lemma update_password_identity hashed email t :
  identity <$> (update_password hashed email t).1 = identity <$> t.
Proof.
  unfold update_password. simpl. rewrite <- list_fmap_compose.
  apply list_fmap_ext. intros i u _. simpl. by destruct (decide _).
Qed.

Lemma identity_username (t : list user) :
  user_username <$> t = (λ i, i.1.2) <$> (identity <$> t).
Proof. rewrite <- list_fmap_compose. by apply list_fmap_ext. Qed.

Lemma identity_email (t : list user) :
  user_email <$> t = snd <$> (identity <$> t).
Proof. rewrite <- list_fmap_compose. by apply list_fmap_ext. Qed.


(** *** update_user_password *)

Lemma update_user_password_returned `{Bcrypt} s email new_password d h :
  bcrypt_hash s new_password = Returned h →
  update_user_password s email new_password d =
    (Returned (bool_decide ((update_password h email (users d)).2 > 0)),
     {| users := (update_password h email (users d)).1;
        sqlite_sequence := sqlite_sequence d |}).
Proof. intros Hh. unfold update_user_password, init_db. by rewrite Hh. Qed.

Lemma update_user_password_raised `{Bcrypt} s email new_password d exception :
  bcrypt_hash s new_password = Raised exception →
  update_user_password s email new_password d = (Raised exception, d).
Proof. intros Hh. unfold update_user_password, init_db. by rewrite Hh. Qed.

Lemma update_user_password_success `{Bcrypt} s email new_password d h u :
  bcrypt_hash s new_password = Returned h →
  u ∈ users d → user_email u = email →
  (update_user_password s email new_password d).1 = Returned true.
Proof.
  intros Hh Hu Heq. rewrite (update_user_password_returned _ _ _ _ h) by done.
  cbn [fst]. f_equal. apply bool_decide_eq_true, update_password_rowcount.
  by exists u.
Qed.

(** The store a password update leaves: the one it was given when bcrypt
    raises, the rewritten one otherwise. *)
Lemma update_user_password_store `{Bcrypt} s email new_password d :
  (update_user_password s email new_password d).2 =
    match bcrypt_hash s new_password with
    | Returned h =>
        {| users := (update_password h email (users d)).1;
           sqlite_sequence := sqlite_sequence d |}
    | Raised _ => d
    end.
Proof. unfold update_user_password, init_db. by destruct (bcrypt_hash _ _). Qed.


(** *** create_user *)

Lemma create_user_raised `{Bcrypt} s username email password d exception :
  bcrypt_hash s password = Raised exception →
  create_user s username email password d = (Raised exception, d).
Proof. intros Hh. unfold create_user, init_db. by rewrite Hh. Qed.

Lemma create_user_conflict `{Bcrypt} s username email password d h u :
  bcrypt_hash s password = Returned h →
  u ∈ users d → user_username u = username ∨ user_email u = email →
  create_user s username email password d = (Returned false, d).
Proof.
  intros Hh Hu Hsame. unfold create_user, insert_user, init_db. rewrite Hh.
  assert (unique_conflict username email (users d) = true) as ->; [|done].
  apply unique_conflict_true. by exists u.
Qed.

Lemma create_user_fresh `{Bcrypt} s username email password d h :
  bcrypt_hash s password = Returned h →
  unique_conflict username email (users d) = false →
  create_user s username email password d =
    (Returned true,
     {| users := users d ++
          [User (Z.max (sqlite_sequence d) (max_rowid (users d)) + 1)
             username email h];
        sqlite_sequence := Z.max (sqlite_sequence d) (max_rowid (users d)) + 1 |}).
Proof.
  intros Hh Hfree. unfold create_user, insert_user, init_db.
  by rewrite Hh, Hfree.
Qed.

(** [create_user] either leaves the store as it was, without returning
    true, or returns true and appends the row. *)
Lemma create_user_cases `{Bcrypt} s username email password d :
  ((create_user s username email password d).2 = d
   ∧ (create_user s username email password d).1 ≠ Returned true)
  ∨ ∃ h, bcrypt_hash s password = Returned h
         ∧ unique_conflict username email (users d) = false
         ∧ create_user s username email password d =
             (Returned true,
              {| users := users d ++
                   [User (Z.max (sqlite_sequence d) (max_rowid (users d)) + 1)
                      username email h];
                 sqlite_sequence :=
                   Z.max (sqlite_sequence d) (max_rowid (users d)) + 1 |}).
Proof.
  destruct (bcrypt_hash s password) as [h|exception] eqn:Hh.
  - destruct (unique_conflict username email (users d)) eqn:Hc.
    + left. apply unique_conflict_true in Hc as (u & Hu & Hsame).
      by rewrite (create_user_conflict _ _ _ _ _ h u).
    + right. exists h. split; [done|]. split; [done|].
      by apply create_user_fresh.
  - left. by rewrite (create_user_raised _ _ _ _ _ exception).
Qed.

Lemma max_rowid_bound t u : u ∈ t → user_id u ≤ max_rowid t.
Proof.
  induction t as [|v t IH]; intros Hu; [by apply not_elem_of_nil in Hu|].
  simpl. apply elem_of_cons in Hu as [->|Hu]; [lia|].
  specialize (IH Hu). lia.
Qed.

(** C2. On any store, for a password that [bcrypt.hash] accepts:
    [create_user] returns false and leaves the store as it was when a row
    already has the username or the email; otherwise it returns true and
    appends one row that holds the username, the email and the bcrypt hash
    of the password under the salt drawn, with an id above every id of the
    table. After a call that returned true, a second call with the same
    username, or with the same email, returns false and changes nothing.
    When [bcrypt.hash] raises, the exception leaves [create_user] and the
    store is the one it was given. *)
Theorem create_user_unique `{Bcrypt} (s : salt)
    (username email password : string) (d : db) :
  (∀ exception, bcrypt_hash s password = Raised exception →
     create_user s username email password d = (Raised exception, d))
  ∧ (∀ h, bcrypt_hash s password = Returned h →
       ((∃ u, u ∈ users d
              ∧ (user_username u = username ∨ user_email u = email)) →
          create_user s username email password d = (Returned false, d))
       ∧ ((∀ u, u ∈ users d →
             user_username u ≠ username ∧ user_email u ≠ email) →
          ∃ rowid,
            create_user s username email password d =
              (Returned true,
               {| users := users d ++ [User rowid username email h];
                  sqlite_sequence := rowid |})
            ∧ ∀ u, u ∈ users d → user_id u < rowid))
  ∧ ((create_user s username email password d).1 = Returned true →
     ∀ s2 username2 email2 password2 h2,
       bcrypt_hash s2 password2 = Returned h2 →
       let d1 := (create_user s username email password d).2 in
       create_user s2 username email2 password2 d1 = (Returned false, d1)
       ∧ create_user s2 username2 email password2 d1 = (Returned false, d1)).
Proof.
  split; [|split].
  - intros exception. apply create_user_raised.
  - intros h Hh. split.
    + intros (u & Hu & Hsame). by eapply create_user_conflict.
    + intros Hfree. apply unique_conflict_false in Hfree.
      rewrite (create_user_fresh _ _ _ _ _ h) by done.
      eexists. split; [done|].
      intros u Hu. pose proof (max_rowid_bound _ _ Hu). lia.
  - intros Hok s2 username2 email2 password2 h2 Hh2 d1. subst d1.
    destruct (create_user_cases s username email password d)
      as [[_ Hno]|(h & Hh & Hc & Hnew)]; [done|].
    rewrite Hnew. cbn [snd].
    set (u := User _ username email h).
    assert (u ∈ (users d ++ [u])%list) as Hu
      by (apply elem_of_app; right; by apply list_elem_of_singleton).
    split; apply (create_user_conflict _ _ _ _ _ h2 u); simpl; auto.
Qed.

(** *** get_user_by_email and get_user_by_username *)

Lemma unique_column {K : Type} (f : user → K) (t : list user) u v :
  NoDup (f <$> t) → u ∈ t → v ∈ t → f u = f v → u = v.
Proof.
  induction t as [|w t IH]; intros Hnd Hu Hv Heq.
  - by apply not_elem_of_nil in Hu.
  - rewrite fmap_cons in Hnd. apply NoDup_cons in Hnd as [Hw Hnd].
    apply elem_of_cons in Hu as [->|Hu]; apply elem_of_cons in Hv as [->|Hv];
      [done| | |by apply IH]; exfalso; apply Hw.
    + rewrite Heq. by apply list_elem_of_fmap_2.
    + rewrite <- Heq. by apply list_elem_of_fmap_2.
Qed.

Lemma user_dict_dom u :
  dom (user_dict u) = ({[ "id"; "username"; "email" ]} : gset string).
Proof. unfold user_dict. rewrite !dom_insert_L, dom_singleton_L. set_solver. Qed.

Lemma user_dict_nonempty u : user_dict u ≠ ∅.
Proof.
  intros Hempty. assert (user_dict u !! "id" = None) as Hid
    by (rewrite Hempty; apply lookup_empty).
  unfold user_dict in Hid. by rewrite lookup_insert_eq in Hid.
Qed.

Lemma user_dict_email u : user_dict u !! "email" = Some (VStr (user_email u)).
Proof. done. Qed.

Lemma get_user_by_email_found `{Bcrypt} d u :
  NoDup (user_email <$> users d) → u ∈ users d →
  get_user_by_email (user_email u) d = (Some (user_dict u), d).
Proof.
  intros Hnd Hu. unfold get_user_by_email, init_db.
  by rewrite (fetchone_unique user_email).
Qed.

Lemma get_user_by_username_found `{Bcrypt} d u :
  NoDup (user_username <$> users d) → u ∈ users d →
  get_user_by_username (user_username u) d = (Some (user_dict u), d).
Proof.
  intros Hnd Hu. unfold get_user_by_username, init_db.
  by rewrite (fetchone_unique user_username).
Qed.

Lemma get_user_by_email_absent `{Bcrypt} d email :
  (∀ u, u ∈ users d → user_email u ≠ email) →
  get_user_by_email email d = (None, d).
Proof.
  intros Hnone. unfold get_user_by_email, init_db.
  by rewrite (proj2 (fetchone_None (λ u, user_email u = email) (users d))).
Qed.

Lemma get_user_by_username_absent `{Bcrypt} d username :
  (∀ u, u ∈ users d → user_username u ≠ username) →
  get_user_by_username username d = (None, d).
Proof.
  intros Hnone. unfold get_user_by_username, init_db.
  by rewrite (proj2 (fetchone_None (λ u, user_username u = username) (users d))).
Qed.

(** C8. On a store with unique usernames and emails, [get_user_by_email]
    (resp. [get_user_by_username]) returns [None] when no row has the email
    (username); when a row has it, that row is the only one and the result
    is the dictionary of its id, username and email. A dictionary returned
    has exactly the keys id, username and email: there is no password
    entry. *)
Theorem get_user_lookup `{Bcrypt} (d : db) (key : string) :
  unique_users d →
  ((∀ u, u ∈ users d → user_email u ≠ key) →
     get_user_by_email key d = (None, d))
  ∧ (∀ u, u ∈ users d → user_email u = key →
       get_user_by_email key d =
         (Some {[ "id" := VInt (user_id u);
                  "username" := VStr (user_username u);
                  "email" := VStr (user_email u) ]}, d)
       ∧ ∀ v, v ∈ users d → user_email v = key → v = u)
  ∧ ((∀ u, u ∈ users d → user_username u ≠ key) →
     get_user_by_username key d = (None, d))
  ∧ (∀ u, u ∈ users d → user_username u = key →
       get_user_by_username key d =
         (Some {[ "id" := VInt (user_id u);
                  "username" := VStr (user_username u);
                  "email" := VStr (user_email u) ]}, d)
       ∧ ∀ v, v ∈ users d → user_username v = key → v = u)
  ∧ (∀ r, (get_user_by_email key d).1 = Some r
          ∨ (get_user_by_username key d).1 = Some r →
       dom r = ({[ "id"; "username"; "email" ]} : gset string)
       ∧ r !! "password" = None).
Proof.
  intros [Hnames Hmails]. split; [|split; [|split; [|split]]].
  - apply get_user_by_email_absent.
  - intros u Hu <-. split; [by apply get_user_by_email_found|].
    intros v Hv Heq. by apply (unique_column user_email (users d)).
  - apply get_user_by_username_absent.
  - intros u Hu <-. split; [by apply get_user_by_username_found|].
    intros v Hv Heq. by apply (unique_column user_username (users d)).
  - intros r Hr. assert (∃ u, r = user_dict u) as [u ->].
    { revert Hr. unfold get_user_by_email, get_user_by_username, init_db.
      intros [Hr|Hr]; destruct (fetchone _ _) as [u|]; simpl in Hr;
        try discriminate; exists u; congruence. }
    split; [apply user_dict_dom|].
    apply not_elem_of_dom. rewrite user_dict_dom.
    rewrite !elem_of_union, !elem_of_singleton. intros [[?|?]|?]; discriminate.
Qed.

(** *** verify_user *)

Lemma verify_user_found `{Bcrypt} d u password :
  NoDup (user_username <$> users d) → u ∈ users d →
  verify_user (user_username u) password d =
    (bcrypt_verify password (user_password u), d).
Proof.
  intros Hnd Hu. unfold verify_user, init_db.
  rewrite (fetchone_unique user_username) by done.
  by destruct (bcrypt_verify _ _) as [[|]|].
Qed.

Lemma verify_user_absent `{Bcrypt} d username password :
  (∀ u, u ∈ users d → user_username u ≠ username) →
  verify_user username password d = (Returned false, d).
Proof.
  intros Hnone. unfold verify_user, init_db.
  by rewrite (proj2 (fetchone_None (λ u, user_username u = username) (users d))).
Qed.

Lemma verify_user_store `{Bcrypt} username password d :
  (verify_user username password d).2 = d.
Proof.
  unfold verify_user, init_db.
  destruct (fetchone _ _); [|done]. by destruct (bcrypt_verify _ _) as [[|]|].
Qed.

(** C1. On a store with unique usernames: [verify_user username password]
    returns true exactly when a row has that username and [bcrypt.verify]
    accepts the password against its stored hash. It returns false when no
    row has the username, without calling bcrypt. When a row has the
    username, it gives what [bcrypt.verify] gives for the password and the
    stored hash: false when bcrypt rejects the password, the exception when
    bcrypt raises, and true for the password the stored hash was made from
    (when bcrypt accepts the secret a hash was made from). The store is
    left as it was. *)
Theorem verify_user_exact `{Bcrypt} (d : db) (username password : string) :
  unique_users d →
  ((verify_user username password d).1 = Returned true ↔
     ∃ u, u ∈ users d ∧ user_username u = username
          ∧ bcrypt_verify password (user_password u) = Returned true)
  ∧ ((∀ u, u ∈ users d → user_username u ≠ username) →
     (verify_user username password d).1 = Returned false)
  ∧ (∀ u, u ∈ users d → user_username u = username →
       (verify_user username password d).1 =
         bcrypt_verify password (user_password u))
  ∧ (bcrypt_correct →
     ∀ u s, u ∈ users d → user_username u = username →
       bcrypt_hash s password = Returned (user_password u) →
       (verify_user username password d).1 = Returned true)
  ∧ (verify_user username password d).2 = d.
Proof.
  intros [Hnames _]. split; [|split; [|split; [|split]]].
  - split.
    + unfold verify_user, init_db.
      destruct (fetchone _ _) as [u|] eqn:Hrow; [|done].
      apply fetchone_Some in Hrow as [Hu Hname].
      destruct (bcrypt_verify _ _) as [[|]|] eqn:Hv; [|done..].
      intros _. by exists u.
    + intros (u & Hu & <- & Hv). by rewrite verify_user_found, Hv.
  - intros Hnone. by rewrite verify_user_absent.
  - intros u Hu <-. by rewrite verify_user_found.
  - intros Hcorrect u s Hu <- Hhash.
    rewrite verify_user_found by done. by apply (Hcorrect s).
  - apply verify_user_store.
Qed.

(** *** The invariant *)

Lemma unique_users_identity d d' :
  identity <$> users d' = identity <$> users d →
  unique_users d → unique_users d'.
Proof.
  unfold unique_users. intros Hid.
  by rewrite !identity_username, !identity_email, Hid.
Qed.

Lemma update_user_password_identity `{Bcrypt} s email new_password d :
  identity <$> users (update_user_password s email new_password d).2 =
    identity <$> users d
  ∧ sqlite_sequence (update_user_password s email new_password d).2 =
      sqlite_sequence d.
Proof.
  rewrite update_user_password_store.
  destruct (bcrypt_hash s new_password) as [h|exception]; [|done].
  cbn [users sqlite_sequence]. split; [apply update_password_identity|done].
Qed.

Lemma update_user_password_unique `{Bcrypt} s email new_password d :
  unique_users d → unique_users (update_user_password s email new_password d).2.
Proof. apply unique_users_identity, update_user_password_identity. Qed.

Lemma create_user_unique_users `{Bcrypt} s username email password d :
  unique_users d → unique_users (create_user s username email password d).2.
Proof.
  intros Huniq.
  destruct (create_user_cases s username email password d)
    as [[-> _]|(h & Hh & Hc & ->)]; [done|].
  destruct Huniq as [Hnames Hmails].
  pose proof (proj1 (unique_conflict_false _ _ _) Hc) as Hfree.
  unfold unique_users. simpl. rewrite !fmap_app. simpl.
  split; apply NoDup_app; (split; [done|]);
    (split; [|apply NoDup_singleton]);
    intros k Hk Hin; apply list_elem_of_singleton in Hin as ->;
    apply list_elem_of_fmap in Hk as (u & Heq & Hu);
    destruct (Hfree u Hu); congruence.
Qed.

Lemma read_only_store `{Bcrypt} o s d :
  match o with
  | OpCreateUser _ _ _ | OpUpdateUserPassword _ _ => True
  | _ => exec o s d = d
  end.
Proof.
  destruct o; simpl; try done; [apply verify_user_store|..];
    unfold get_user_by_email, get_user_by_username, init_db;
    by destruct (fetchone _ _).
Qed.

Lemma exec_identity_prefix `{Bcrypt} o s d :
  (identity <$> users d) `prefix_of` (identity <$> users (exec o s d)).
Proof.
  pose proof (read_only_store o s d) as Hread.
  destruct o; try (by rewrite Hread); cbn [exec].
  - destruct (create_user_cases s username email password d)
      as [[-> _]|(h & Hh & Hc & ->)]; [done|].
    simpl. rewrite fmap_app. by apply prefix_app_r.
  - by rewrite (proj1 (update_user_password_identity _ _ _ _)).
Qed.

Lemma exec_unique_users `{Bcrypt} o s d :
  unique_users d → unique_users (exec o s d).
Proof.
  intros Huniq. pose proof (read_only_store o s d) as Hread.
  destruct o; try (by rewrite Hread); cbn [exec].
  - by apply create_user_unique_users.
  - by apply update_user_password_unique.
Qed.

(** C4. Unique usernames and unique emails are an invariant of the store:
    the store [init_db] creates is empty and satisfies it, each of the five
    operations preserves it, so every reachable store satisfies it: two
    distinct rows of such a store differ in username and in email. No
    operation deletes a user: the ids, usernames and emails held before an
    operation are, in the same order, the first ones held after it. *)
Theorem unique_users_invariant `{Bcrypt} :
  (users (init_db None) = [] ∧ unique_users (init_db None))
  ∧ (∀ o s d, unique_users d → unique_users (exec o s d))
  ∧ (∀ d, reachable d → unique_users d)
  ∧ (∀ d u v, unique_users d → u ∈ users d → v ∈ users d → u ≠ v →
       user_username u ≠ user_username v ∧ user_email u ≠ user_email v)
  ∧ (∀ o s d,
       (identity <$> users d) `prefix_of` (identity <$> users (exec o s d))).
Proof.
  assert (unique_users (init_db None)) as Hinit
    by (split; simpl; apply NoDup_nil_2).
  split; [done|]. split; [|split; [|split]].
  - intros o s d. apply exec_unique_users.
  - intros d Hreach. induction Hreach as [|o s d _ IH]; [done|].
    by apply exec_unique_users.
  - intros d u v [Hnames Hmails] Hu Hv Hne.
    split; intros Heq; apply Hne.
    + by apply (unique_column user_username (users d)).
    + by apply (unique_column user_email (users d)).
  - intros o s d. apply exec_identity_prefix.
Qed.


(** *** update_user_password, then verify_user *)

(** C3. On a store with unique usernames and emails, with bcrypt accepting
    for a hash the secret it was made from: for a row [u] and two different
    passwords [old] and [new], if [u] verified with [old] and
    [update_user_password (user_email u) new] returned true, then on the
    resulting store [verify_user (user_username u)] accepts [new], and for
    every password, [old] included, it gives what [bcrypt.verify] gives for
    that password and the hash of [new]: [old] is rejected exactly when
    bcrypt rejects it against the new hash. *)
Theorem update_then_verify `{Bcrypt} (d : db) (u : user) (s : salt)
    (old new : string) :
  unique_users d → bcrypt_correct →
  u ∈ users d → old ≠ new →
  (verify_user (user_username u) old d).1 = Returned true →
  (update_user_password s (user_email u) new d).1 = Returned true →
  let d' := (update_user_password s (user_email u) new d).2 in
  (verify_user (user_username u) new d').1 = Returned true
  ∧ ∃ h, bcrypt_hash s new = Returned h
         ∧ ∀ password,
             (verify_user (user_username u) password d').1 =
               bcrypt_verify password h.
Proof.
  intros Huniq Hcorrect Hu Hne _ Hok d'.
  assert (unique_users d') as [Hnames' _]
    by by apply update_user_password_unique.
  destruct (bcrypt_hash s new) as [h|exception] eqn:Hh;
    [|by rewrite (update_user_password_raised _ _ _ _ exception) in Hok].
  assert (set_password h u ∈ users d') as Hu'.
  { subst d'. rewrite (update_user_password_returned _ _ _ _ h) by done.
    cbn [snd users].
    pose proof (update_password_elem h (user_email u) (users d) u Hu) as Hin.
    by rewrite decide_True in Hin. }
  assert (∀ password,
    (verify_user (user_username u) password d').1 = bcrypt_verify password h)
    as Hall.
  { intros password.
    change (user_username u) with (user_username (set_password h u)).
    by rewrite verify_user_found. }
  split; [|by exists h]. rewrite Hall. by apply (Hcorrect s).
Qed.

(** *** reset_password_direct *)

Lemma run_call `{Bcrypt} {X : Type} (e : dbE X) (k : X → handler response)
    rng d :
  run (Call e k) rng d =
    match perform e (rng 0%nat) d with
    | (Returned x, d1) =>
        let '(r, d2, calls) := run (k x) (λ n, rng (S n)) d1 in
        (r, d2, existT X e :: calls)
    | (Raised exception, d1) => (Uncaught exception, d1, [existT X e])
    end.
Proof. done. Qed.

Lemma reset_password_direct_matching username_or_email new_password :
  reset_password_direct username_or_email new_password new_password =
    Call (GetUserByEmail username_or_email) (λ user,
      bind (if negb (truthy user)
            then call (GetUserByUsername username_or_email) else Ret user)
        (λ user,
          if truthy user then
            match user ≫= (.!! "email") with
            | Some (VStr email) =>
                Call (UpdateUserPassword email new_password) (λ ok,
                  if ok : bool
                  then Ret (RedirectResponse
                              "/login?message=password_reset_success" 303)
                  else Ret (forgot_password
                              "Failed to reset password. Please try again."))
            | _ => Ret (Uncaught "KeyError")
            end
          else Ret (forgot_password
                      "No account found with that username or email."))).
Proof.
  unfold reset_password_direct.
  rewrite bool_decide_eq_false_2 by (intros Hne; by apply Hne).
  reflexivity.
Qed.

(** C5. When [new_password] differs from [confirm_new_password], the handler
    is the program that returns the mismatch error and calls nothing: run on
    any store, it makes no call to database.py (so neither lookup) and
    leaves the store as it was, whatever the identifier. *)
Theorem reset_mismatch_before_lookup `{Bcrypt}
    (username_or_email new_password confirm_new_password : string) :
  new_password ≠ confirm_new_password →
  reset_password_direct username_or_email new_password confirm_new_password =
    Ret (TemplateResponse "forgot_password.html"
           {[ "error" := "Passwords do not match." ]})
  ∧ ∀ rng d,
      run (reset_password_direct username_or_email new_password
             confirm_new_password) rng d =
        (TemplateResponse "forgot_password.html"
           {[ "error" := "Passwords do not match." ]}, d, []).
Proof.
  intros Hne. unfold reset_password_direct.
  by rewrite bool_decide_eq_true_2.
Qed.

(** C7. With matching confirmation and an identifier that is the email of
    no row and the username of no row, the handler returns the
    account-not-found error; the calls it makes are the two lookups, there
    is no call to [update_user_password], and the store is as it was. *)
Theorem reset_unknown_account `{Bcrypt}
    (username_or_email new_password confirm_new_password : string)
    (rng : nat → salt) (d : db) :
  new_password = confirm_new_password →
  (∀ u, u ∈ users d →
     user_email u ≠ username_or_email ∧ user_username u ≠ username_or_email) →
  run (reset_password_direct username_or_email new_password
         confirm_new_password) rng d =
    (TemplateResponse "forgot_password.html"
       {[ "error" := "No account found with that username or email." ]},
     d,
     [existT _ (GetUserByEmail username_or_email);
      existT _ (GetUserByUsername username_or_email)]).
Proof.
  intros <- Hnone.
  rewrite reset_password_direct_matching, run_call. cbn [perform].
  rewrite get_user_by_email_absent by (intros u Hu; by apply Hnone).
  cbn [truthy negb bind call]. rewrite run_call. cbn [perform].
  rewrite get_user_by_username_absent by (intros u Hu; by apply Hnone).
  reflexivity.
Qed.


(** *** convert_to_pdf and download_pdf *)

Section ConvertFacts.
Variable libreoffice :
  list string → gmap string string → run_result * gmap string string.

(** C9. For an upload stored under the identifier [file_id]: the response
    is [completed] with that identifier exactly when the converter exits
    with code 0 and the output path exists afterwards. A non-zero exit, a
    missing binary, and a missing output file after exit 0 each give
    [failed] with a message and status 500. A download whose output path
    does not exist gives status 404. *)
Theorem convert_outcomes (file_id content : string) (fs : gmap string string) :
  let input_path := path_join UPLOAD_DIR (file_id +:+ ".docx") in
  let output_path := path_join UPLOAD_DIR (file_id +:+ ".pdf") in
  let ran := libreoffice (convert_command input_path)
               (<[input_path := content]> fs) in
  let answer := (convert_to_pdf libreoffice file_id content fs).1 in
  (answer = JSONResponse {[ "status" := "completed"; "file_id" := file_id ]} 200
     ↔ ran.1 = Exited 0 ∧ path_exists output_path ran.2 = true)
  ∧ (∀ returncode, ran.1 = Exited returncode → returncode ≠ 0 →
       answer = JSONResponse {[ "status" := "failed";
                                "message" := "PDF conversion failed." ]} 500)
  ∧ (ran.1 = FileNotFoundError →
       answer = JSONResponse
                  {[ "status" := "failed";
                     "message" := "Server error: PDF converter not found." ]}
                  500)
  ∧ (ran.1 = Exited 0 → path_exists output_path ran.2 = false →
       answer = JSONResponse
                  {[ "status" := "failed";
                     "message" := "PDF output file not found after conversion." ]}
                  500)
  ∧ (∀ requested files,
       path_exists (path_join UPLOAD_DIR (requested +:+ ".pdf")) files = false →
       download_pdf requested files =
         JSONResponse {[ "error" := "File not found" ]} 404).
Proof.
  intros input_path output_path ran answer.
  assert (∀ requested files,
    path_exists (path_join UPLOAD_DIR (requested +:+ ".pdf")) files = false →
    download_pdf requested files =
      JSONResponse {[ "error" := "File not found" ]} 404) as Hdownload.
  { intros requested files Hmissing. unfold download_pdf. by rewrite Hmissing. }
  subst answer. unfold convert_to_pdf. fold input_path output_path ran.
  destruct ran as [[returncode|] fs1]; simpl.
  - case_bool_decide as Hcode.
    + split; [|split; [|split; [|split]]]; [|done|discriminate| |done].
      * split; [discriminate|]. by intros [[= ->] _].
      * by intros [= ->].
    + subst returncode. destruct (path_exists output_path fs1) eqn:Hout.
      * split; [|split; [|split; [|split]]]; [done| |discriminate|done|done].
        by intros returncode [= <-].
      * split; [|split; [|split; [|split]]]; [| |discriminate|done|done].
        -- split; [discriminate|]. by intros [_ ?].
        -- by intros returncode [= <-].
  - split; [|split; [|split; [|split]]]; [|discriminate|done|discriminate|done].
    split; [discriminate|]. by intros [? _].
Qed.

End ConvertFacts.

(** * The properties on the concrete store *)

Section Examples.
Import Example.

Lemma passlib_bcrypt_correct : bcrypt_correct.
Proof.
  intros s p h. simpl. unfold passlib_hash, passlib_verify.
  destruct (has_nul p); [done|]. intros [= <-].
  by rewrite bool_decide_eq_true_2.
Qed.

Lemma registered_users : users registered = [alice; bob].
Proof. reflexivity. Qed.

Lemma registered_reachable : reachable registered.
Proof.
  apply (@reachable_exec passlib_bcrypt
    (OpCreateUser "alice@example.org" "bob@example.org" "builder") "t"%char).
  apply (@reachable_exec passlib_bcrypt
    (OpCreateUser "alice" "alice@example.org" "wonderland") "s"%char).
  apply reachable_init.
Qed.

Lemma registered_unique : unique_users registered.
Proof.
  split; rewrite registered_users; simpl;
    repeat (apply NoDup_cons; split; [|]); try apply NoDup_nil_2;
    rewrite ?elem_of_cons; intros Hin; decompose [or] Hin;
    try discriminate; by eapply not_elem_of_nil.
Qed.

Lemma alice_registered : alice ∈ users registered.
Proof. rewrite registered_users. left. Qed.

Lemma bob_registered : bob ∈ users registered.
Proof. rewrite registered_users. right. left. Qed.

Lemma long_registered_users :
  users long_registered =
    [User 1 "alice" "alice@example.org" (String "s" seventy_two)].
Proof. by vm_compute. Qed.

Lemma long_registered_unique : unique_users long_registered.
Proof.
  split; rewrite long_registered_users; simpl; apply NoDup_singleton.
Qed.

Lemma long_passwords_differ : long_one ≠ long_two.
Proof. intros Heq. apply (inj (String.append seventy_two)) in Heq. discriminate. Qed.

Lemma nobody_called_carol u :
  u ∈ users registered →
  user_username u ≠ "carol" ∧ user_email u ≠ "carol@example.org".
Proof.
  intros Hu. rewrite registered_users in Hu.
  apply elem_of_cons in Hu as [->|Hu]; [split; discriminate|].
  apply elem_of_cons in Hu as [->|Hu]; [split; discriminate|].
  by apply not_elem_of_nil in Hu.
Qed.

(** *** verify_user *)

Lemma verify_user_exact_witness :
  unique_users registered
  ∧ (verify_user "alice" "wonderland" registered).1 = Returned true
  ∧ (verify_user "alice" "Wonderland" registered).1 = Returned false
  ∧ (verify_user "carol" nul_password registered).1 = Returned false.
Proof.
  split; [exact registered_unique|].
  destruct (verify_user_exact registered "alice" "wonderland"
              registered_unique) as (_ & _ & _ & Hstored & _).
  destruct (verify_user_exact registered "alice" "Wonderland"
              registered_unique) as (_ & _ & Hwrong & _).
  destruct (verify_user_exact registered "carol" nul_password
              registered_unique) as (_ & Hunknown & _).
  split; [|split].
  - apply (Hstored passlib_bcrypt_correct alice "s"%char alice_registered);
      reflexivity.
  - by rewrite (Hwrong alice alice_registered eq_refl).
  - apply Hunknown. intros u Hu. by destruct (nobody_called_carol u Hu).
Defined.

(** The stored hash was made from [long_one]; [long_two] is another
    password, and [verify_user] returns true for it. *)
Lemma verify_user_accepts_other_password :
  long_two ≠ long_one
  ∧ create_user "s"%char "alice" "alice@example.org" long_one (init_db None) =
      (Returned true, long_registered)
  ∧ (verify_user "alice" long_two long_registered).1 = Returned true.
Proof.
  split; [intros Heq; by apply long_passwords_differ|].
  split; by vm_compute.
Qed.

(** *** update_user_password, then verify_user *)

Lemma update_then_verify_witness :
  unique_users registered ∧ alice ∈ users registered
  ∧ "wonderland" ≠ "looking-glass"
  ∧ (verify_user "alice" "wonderland" registered).1 = Returned true
  ∧ (update_user_password "u"%char "alice@example.org" "looking-glass"
       registered).1 = Returned true
  ∧ (verify_user "alice" "looking-glass"
       (update_user_password "u"%char "alice@example.org" "looking-glass"
          registered).2).1 = Returned true
  ∧ (verify_user "alice" "wonderland"
       (update_user_password "u"%char "alice@example.org" "looking-glass"
          registered).2).1 = Returned false.
Proof.
  split; [exact registered_unique|]. split; [exact alice_registered|].
  split; [discriminate|]. split; [reflexivity|]. split; [reflexivity|].
  destruct (update_then_verify (H := passlib_bcrypt) registered alice "u"%char
              "wonderland" "looking-glass" registered_unique
              passlib_bcrypt_correct alice_registered)
    as (Hnew & h & Hh & Hall); [discriminate|reflexivity|reflexivity|].
  split; [exact Hnew|].
  change (user_username alice) with "alice" in Hall.
  change (user_email alice) with "alice@example.org" in Hall.
  rewrite Hall. injection Hh as <-. reflexivity.
Defined.

(** alice verified with [long_one]; after a successful update to the
    different password [long_two], [long_one] still verifies. *)
Lemma update_keeps_old_password_valid :
  long_one ≠ long_two
  ∧ User 1 "alice" "alice@example.org" (String "s" seventy_two)
      ∈ users long_registered
  ∧ (verify_user "alice" long_one long_registered).1 = Returned true
  ∧ (update_user_password "u"%char "alice@example.org" long_two
       long_registered).1 = Returned true
  ∧ (verify_user "alice" long_two
       (update_user_password "u"%char "alice@example.org" long_two
          long_registered).2).1 = Returned true
  ∧ (verify_user "alice" long_one
       (update_user_password "u"%char "alice@example.org" long_two
          long_registered).2).1 = Returned true.
Proof.
  split; [exact long_passwords_differ|].
  split; [rewrite long_registered_users; left|].
  repeat split; by vm_compute.
Qed.

Lemma reset_mismatch_before_lookup_witness :
  "looking-glass" ≠ "looking-glas"
  ∧ run (reset_password_direct "alice@example.org" "looking-glass"
           "looking-glas") rng registered =
      (TemplateResponse "forgot_password.html"
         {[ "error" := "Passwords do not match." ]}, registered, []).
Proof.
  split; [discriminate|].
  apply (reset_mismatch_before_lookup "alice@example.org" "looking-glass"
           "looking-glas"); discriminate.
Defined.

Lemma reset_unknown_account_witness :
  run (reset_password_direct "carol" "hunter2" "hunter2") rng registered =
    (TemplateResponse "forgot_password.html"
       {[ "error" := "No account found with that username or email." ]},
     registered,
     [existT _ (GetUserByEmail "carol"); existT _ (GetUserByUsername "carol")]).
Proof.
  apply (reset_unknown_account "carol" "hunter2" "hunter2" rng registered);
    [reflexivity|].
  intros u Hu. rewrite registered_users in Hu.
  apply elem_of_cons in Hu as [->|Hu]; [split; discriminate|].
  apply elem_of_cons in Hu as [->|Hu]; [split; discriminate|].
  by apply not_elem_of_nil in Hu.
Defined.

Lemma get_user_lookup_witness :
  unique_users registered
  ∧ get_user_by_email "bob@example.org" registered =
      (Some {[ "id" := VInt 2; "username" := VStr "alice@example.org";
               "email" := VStr "bob@example.org" ]}, registered)
  ∧ get_user_by_username "alice" registered =
      (Some {[ "id" := VInt 1; "username" := VStr "alice";
               "email" := VStr "alice@example.org" ]}, registered).
Proof.
  split; [exact registered_unique|]. split.
  - destruct (get_user_lookup registered "bob@example.org" registered_unique)
      as (_ & Hmail & _).
    apply (Hmail bob bob_registered). reflexivity.
  - destruct (get_user_lookup registered "alice" registered_unique)
      as (_ & _ & _ & Hname & _).
    apply (Hname alice alice_registered). reflexivity.
Defined.

(** *** reset_password_direct by email *)



(** *** create_user *)

Lemma create_user_unique_witness :
  (create_user "s"%char "alice" "alice@example.org" "wonderland"
     (init_db None)).1 = Returned true
  ∧ create_user "t"%char "alice" "other@example.org" "builder"
      (create_user "s"%char "alice" "alice@example.org" "wonderland"
         (init_db None)).2 =
      (Returned false,
       (create_user "s"%char "alice" "alice@example.org" "wonderland"
          (init_db None)).2)
  ∧ create_user "t"%char "other" "alice@example.org" "builder"
      (create_user "s"%char "alice" "alice@example.org" "wonderland"
         (init_db None)).2 =
      (Returned false,
       (create_user "s"%char "alice" "alice@example.org" "wonderland"
          (init_db None)).2)
  ∧ create_user "u"%char "carol" "bob@example.org" "hunter2" registered =
      (Returned false, registered).
Proof.
  destruct (create_user_unique (H := passlib_bcrypt) "s"%char "alice"
              "alice@example.org" "wonderland" (init_db None))
    as (_ & _ & Hsecond).
  destruct (create_user_unique (H := passlib_bcrypt) "u"%char "carol"
              "bob@example.org" "hunter2" registered) as (_ & Hreturns & _).
  destruct (Hreturns "uhunter2" eq_refl) as [Hconflict _].
  split; [reflexivity|]. split; [|split].
  - apply (Hsecond eq_refl "t"%char "other" "other@example.org" "builder"
             "tbuilder" eq_refl).
  - apply (Hsecond eq_refl "t"%char "other" "other@example.org" "builder"
             "tbuilder" eq_refl).
  - apply Hconflict. exists bob. split; [exact bob_registered | by right].
Defined.

(** No row has the username or the email, and [create_user] neither
    persists a user nor returns true. *)
Lemma create_user_nul_raises :
  (∀ u, u ∈ users registered →
     user_username u ≠ "carol" ∧ user_email u ≠ "carol@example.org")
  ∧ create_user "v"%char "carol" "carol@example.org" nul_password registered =
      (Raised "PasswordValueError", registered).
Proof. split; [exact nobody_called_carol | by vm_compute]. Qed.

(** *** update_user_password *)



(** *** The invariant and the conversion *)

Lemma unique_users_invariant_witness :
  unique_users registered
  ∧ unique_users
      (exec (OpUpdateUserPassword "alice@example.org" "hunter2") "u"%char
         registered)
  ∧ user_username alice ≠ user_username bob.
Proof.
  destruct (unique_users_invariant (H := passlib_bcrypt))
    as (_ & Hstep & Hreach & Hdistinct & _).
  pose proof (Hreach registered registered_reachable) as Huniq.
  split; [exact Huniq|]. split; [by apply Hstep|].
  apply (Hdistinct registered alice bob Huniq alice_registered bob_registered).
  discriminate.
Defined.

Lemma convert_outcomes_witness :
  (convert_to_pdf converter_ok "7f3c" "docx" ∅).1 =
    JSONResponse {[ "status" := "completed"; "file_id" := "7f3c" ]} 200
  ∧ (convert_to_pdf converter_missing "7f3c" "docx" ∅).1 =
      JSONResponse {[ "status" := "failed";
                      "message" := "Server error: PDF converter not found." ]} 500
  ∧ download_pdf "0000" (convert_to_pdf converter_ok "7f3c" "docx" ∅).2 =
      JSONResponse {[ "error" := "File not found" ]} 404.
Proof.
  destruct (convert_outcomes converter_ok "7f3c" "docx" ∅)
    as (Hcompleted & _ & _ & _ & Hdownload).
  destruct (convert_outcomes converter_missing "7f3c" "docx" ∅)
    as (_ & _ & Hmissing & _).
  split; [|split].
  - apply Hcompleted. split; reflexivity.
  - apply Hmissing. reflexivity.
  - apply Hdownload. reflexivity.
Defined.

End Examples.
(** * Further properties of the user store *)

Import Keys.

(** *** The first match of a query, over an appended row and a rewritten column *)

Section FirstMatch.
Context {A : Type} (P : A → Prop) `{∀ x, Decision (P x)}.

Lemma first_match_app_new (l : list A) (x : A) :
  (∀ y, y ∈ l → ¬ P y) → P x → head (filter P (l ++ [x])%list) = Some x.
Proof.
  intros Hnone Hx. rewrite filter_app.
  assert (filter P l = []) as ->.
  { induction l as [|y l IH]; [done|].
    rewrite filter_cons, decide_False by (apply Hnone; left).
    apply IH. intros z Hz. apply Hnone. by right. }
  simpl. rewrite filter_cons, decide_True by done. done.
Qed.

Lemma first_match_app_other (l : list A) (x : A) :
  ¬ P x → head (filter P (l ++ [x])%list) = head (filter P l).
Proof.
  intros Hx. rewrite filter_app, filter_cons, decide_False by done.
  rewrite filter_nil. by rewrite app_nil_r.
Qed.

Lemma first_match_fmap (f : A → A) (l : list A) :
  (∀ x, P (f x) ↔ P x) →
  head (filter P (f <$> l)) = f <$> head (filter P l).
Proof.
  intros Hf. induction l as [|y l IH]; [done|].
  rewrite fmap_cons, !filter_cons.
  destruct (decide (P y)) as [Hy|Hy].
  - rewrite decide_True by (by apply Hf). done.
  - rewrite decide_False by (by rewrite Hf). done.
Qed.
End FirstMatch.

Lemma create_user_true `{Bcrypt} s username email password d :
  (create_user s username email password d).1 = Returned true →
  ∃ h, bcrypt_hash s password = Returned h
       ∧ unique_conflict username email (users d) = false
       ∧ create_user s username email password d =
           (Returned true,
            {| users := users d ++
                 [User (Z.max (sqlite_sequence d) (max_rowid (users d)) + 1)
                    username email h];
               sqlite_sequence :=
                 Z.max (sqlite_sequence d) (max_rowid (users d)) + 1 |}).
Proof.
  intros Hok.
  by destruct (create_user_cases s username email password d) as [[_ ?]|?].
Qed.

(** X1. Registration round trip: on the store left by a [create_user] that
    returned true, [verify_user] with the same username accepts the
    password given (when bcrypt accepts the secret a hash was made from),
    and for every password it gives what [bcrypt.verify] gives for that
    password and the hash just stored. *)
Theorem create_then_verify `{Bcrypt} (s : salt)
    (username email password : string) (d : db) :
  (create_user s username email password d).1 = Returned true →
  let d' := (create_user s username email password d).2 in
  (bcrypt_correct → (verify_user username password d').1 = Returned true)
  ∧ ∃ h, bcrypt_hash s password = Returned h
         ∧ ∀ other, (verify_user username other d').1 = bcrypt_verify other h.
Proof.
  intros Hok d'. apply create_user_true in Hok as (h & Hh & Hc & Hnew).
  subst d'. rewrite Hnew.
  pose proof (proj1 (unique_conflict_false _ _ _) Hc) as Hfree.
  assert (∀ other,
    (verify_user username other
       (Returned true,
        {| users := users d ++
             [User (Z.max (sqlite_sequence d) (max_rowid (users d)) + 1)
                username email h];
           sqlite_sequence :=
             Z.max (sqlite_sequence d) (max_rowid (users d)) + 1 |}).2).1 =
    bcrypt_verify other h) as Hall.
  { intros other. unfold verify_user, init_db, fetchone. cbn [users snd].
    rewrite (first_match_app_new (λ u, user_username u = username))
      by (done || intros u Hu; by apply Hfree).
    cbn [user_password]. by destruct (bcrypt_verify other h) as [[|]|]. }
  split; [|by exists h].
  intros Hcorrect. rewrite Hall. by apply (Hcorrect s).
Qed.

(** X2. Insert, then look up: after a [create_user] that returned true, both
    [get_user_by_email] and [get_user_by_username] return the new user's
    record, whose id is above every id the table held before. *)
Theorem create_then_lookup `{Bcrypt} (s : salt)
    (username email password : string) (d : db) :
  (create_user s username email password d).1 = Returned true →
  let d' := (create_user s username email password d).2 in
  ∃ rowid,
    (get_user_by_email email d').1 =
      Some {[ "id" := VInt rowid; "username" := VStr username;
              "email" := VStr email ]}
    ∧ (get_user_by_username username d').1 =
        Some {[ "id" := VInt rowid; "username" := VStr username;
                "email" := VStr email ]}
    ∧ ∀ u, u ∈ users d → user_id u < rowid.
Proof.
  intros Hok d'. apply create_user_true in Hok as (h & Hh & Hc & Hnew).
  subst d'. rewrite Hnew.
  pose proof (proj1 (unique_conflict_false _ _ _) Hc) as Hfree.
  eexists. unfold get_user_by_email, get_user_by_username, init_db, fetchone.
  cbn [users snd].
  rewrite (first_match_app_new (λ u, user_email u = email))
    by (done || intros u Hu; by apply Hfree).
  rewrite (first_match_app_new (λ u, user_username u = username))
    by (done || intros u Hu; by apply Hfree).
  split; [done|]. split; [done|].
  intros u Hu. pose proof (max_rowid_bound _ _ Hu) as Hmax.
  cbn [user_id]. lia.
Qed.

(** X3. Registration leaves the other accounts alone: whatever
    [create_user] returns, the rows held before are the first rows held
    after, unchanged, and [verify_user] for any other username and the
    lookups by any other email or username answer as before. *)
Theorem create_user_frame `{Bcrypt} (s : salt)
    (username email password : string) (d : db) :
  let d' := (create_user s username email password d).2 in
  users d `prefix_of` users d'
  ∧ (∀ name pw, name ≠ username →
       (verify_user name pw d').1 = (verify_user name pw d).1)
  ∧ (∀ name, name ≠ username →
       (get_user_by_username name d').1 = (get_user_by_username name d).1)
  ∧ (∀ mail, mail ≠ email →
       (get_user_by_email mail d').1 = (get_user_by_email mail d).1).
Proof.
  intros d'. subst d'.
  destruct (create_user_cases s username email password d)
    as [[-> _]|(h & Hh & Hc & ->)]; [done|].
  unfold verify_user, get_user_by_username, get_user_by_email, init_db, fetchone.
  cbn [users snd]. split; [by apply prefix_app_r|]. split; [|split].
  - intros name pw Hne.
    rewrite (first_match_app_other (λ u, user_username u = name))
      by (simpl; congruence).
    destruct (head _) as [u|]; [|done].
    by destruct (bcrypt_verify _ _) as [[|]|].
  - intros name Hne.
    rewrite (first_match_app_other (λ u, user_username u = name))
      by (simpl; congruence).
    by destruct (head _).
  - intros mail Hne.
    rewrite (first_match_app_other (λ u, user_email u = mail))
      by (simpl; congruence).
    by destruct (head _).
Qed.

(** *** The primary key *)

Lemma identity_id (t : list user) :
  user_id <$> t = (λ i, i.1.1) <$> (identity <$> t).
Proof. rewrite <- list_fmap_compose. by apply list_fmap_ext. Qed.

Lemma max_rowid_ids t : Forall (λ i, i ≤ max_rowid t) (user_id <$> t).
Proof.
  apply Forall_forall. intros i Hi.
  apply list_elem_of_fmap in Hi as (u & -> & Hu). by apply max_rowid_bound.
Qed.

Lemma create_user_ascending `{Bcrypt} s username email password d :
  ascending_ids d → ascending_ids (create_user s username email password d).2.
Proof.
  intros [Hsorted Hbound].
  destruct (create_user_cases s username email password d)
    as [[-> _]|(h & Hh & Hc & ->)]; [done|].
  unfold ascending_ids. cbn [snd users].
  rewrite fmap_app. cbn [sqlite_sequence fmap list_fmap user_id]. split.
  - apply StronglySorted_app_2; [|done|repeat constructor].
    intros i j Hi Hj. apply list_elem_of_singleton in Hj as ->.
    pose proof (max_rowid_ids (users d)) as Hmax.
    rewrite Forall_forall in Hmax. specialize (Hmax i Hi). lia.
  - apply Forall_app. split.
    + eapply Forall_impl; [exact Hbound|]. intros i Hi. simpl in Hi. lia.
    + apply Forall_singleton.
      pose proof (max_rowid_ids (users d)) as Hmax.
      destruct (users d) as [|u t]; simpl in *; [lia|].
      apply Forall_cons in Hbound as [Hu _]. lia.
Qed.

Lemma update_user_password_ascending `{Bcrypt} s email new_password d :
  ascending_ids d → ascending_ids (update_user_password s email new_password d).2.
Proof.
  unfold ascending_ids.
  destruct (update_user_password_identity s email new_password d) as [Hid ->].
  by rewrite !identity_id, Hid.
Qed.

Lemma exec_ascending `{Bcrypt} o s d : ascending_ids d → ascending_ids (exec o s d).
Proof.
  intros Hasc. pose proof (read_only_store o s d) as Hread.
  destruct o; try (by rewrite Hread); cbn [exec].
  - by apply create_user_ascending.
  - by apply update_user_password_ascending.
Qed.

Lemma StronglySorted_lt_NoDup (l : list Z) : StronglySorted Z.lt l → NoDup l.
Proof.
  induction 1 as [|i l _ IH Hall]; [apply NoDup_nil_2|].
  apply NoDup_cons. split; [|done].
  intros Hi. rewrite Forall_forall in Hall. specialize (Hall i Hi). lia.
Qed.

(** X4. The ids behave as a primary key handed out in order: on the fresh
    store and after any operation, hence on every reachable store, the ids
    are positive, strictly increasing in the order of registration and at
    most the AUTOINCREMENT counter; so two rows with the same id are the
    same row. *)
Theorem ascending_ids_invariant `{Bcrypt} :
  ascending_ids (init_db None)
  ∧ (∀ o s d, ascending_ids d → ascending_ids (exec o s d))
  ∧ (∀ d, reachable d → ascending_ids d)
  ∧ (∀ d u v, ascending_ids d → u ∈ users d → v ∈ users d →
       user_id u = user_id v → u = v).
Proof.
  assert (ascending_ids (init_db None)) as Hinit by (split; constructor).
  split; [done|]. split; [|split].
  - intros o s d. apply exec_ascending.
  - intros d Hreach. induction Hreach as [|o s d _ IH]; [done|].
    by apply exec_ascending.
  - intros d u v [Hsorted _] Hu Hv Heq.
    apply (unique_column user_id (users d)); [|done..].
    by apply StronglySorted_lt_NoDup.
Qed.

(** *** update_user_password, again *)

Lemma filter_fmap_stable {A : Type} (P : A → Prop) `{∀ x, Decision (P x)}
    (f : A → A) (l : list A) :
  (∀ x, P (f x) ↔ P x) → filter P (f <$> l) = f <$> filter P l.
Proof.
  intros Hf. induction l as [|y l IH]; [done|].
  rewrite fmap_cons, !filter_cons.
  destruct (decide (P y)) as [Hy|Hy].
  - rewrite decide_True by (by apply Hf). by rewrite fmap_cons, IH.
  - rewrite decide_False by (by rewrite Hf). done.
Qed.

Lemma update_password_twice h1 h2 email t :
  update_password h2 email (update_password h1 email t).1 =
    update_password h2 email t.
Proof.
  unfold update_password. cbn [fst]. f_equal.
  - rewrite <- list_fmap_compose. apply list_fmap_ext. intros i u _. simpl.
    destruct (decide (user_email u = email)) as [Heq|Hne]; simpl.
    + by rewrite decide_True.
    + by rewrite decide_False.
  - f_equal.
    rewrite (filter_fmap_stable (λ u, user_email u = email))
      by (intros u; by destruct (decide _)).
    apply length_fmap.
Qed.

(** X5. The last reset wins: for a second password that [bcrypt.hash]
    accepts, updating the password of an email twice gives the result, and
    the store, of the second update alone. When [bcrypt.hash] raises on the
    second password, the store stays the one the first update left. *)
Theorem update_user_password_twice `{Bcrypt} (s1 s2 : salt)
    (email first second : string) (d : db) :
  update_user_password s2 email second
    (update_user_password s1 email first d).2 =
  match bcrypt_hash s2 second with
  | Returned _ => update_user_password s2 email second d
  | Raised exception =>
      (Raised exception, (update_user_password s1 email first d).2)
  end.
Proof.
  destruct (bcrypt_hash s2 second) as [h2|exception] eqn:H2;
    [|by apply update_user_password_raised].
  rewrite (update_user_password_returned s2 email second d h2) by done.
  rewrite (update_user_password_returned s2 email second _ h2) by done.
  rewrite update_user_password_store.
  destruct (bcrypt_hash s1 first) as [h1|exception]; [|done].
  cbn [users sqlite_sequence].
  pose proof (update_password_twice h1 h2 email (users d)) as Htwice.
  by rewrite Htwice.
Qed.

(** X6. A password update is invisible to the lookups: whatever the email
    and the new password, [get_user_by_email] and [get_user_by_username]
    return on the updated store what they returned before. *)
Theorem update_user_password_lookups `{Bcrypt} (s : salt)
    (email new_password key : string) (d : db) :
  let d' := (update_user_password s email new_password d).2 in
  (get_user_by_email key d').1 = (get_user_by_email key d).1
  ∧ (get_user_by_username key d').1 = (get_user_by_username key d).1.
Proof.
  intros d'. subst d'. rewrite update_user_password_store.
  destruct (bcrypt_hash s new_password) as [h|exception]; [|done].
  unfold get_user_by_email, get_user_by_username, init_db, fetchone.
  unfold update_password. cbn [fst users].
  split.
  - rewrite (first_match_fmap (λ u, user_email u = key))
      by (intros u; by destruct (decide _)).
    destruct (head _) as [u|]; [|done]. simpl. by destruct (decide _).
  - rewrite (first_match_fmap (λ u, user_username u = key))
      by (intros u; by destruct (decide _)).
    destruct (head _) as [u|]; [|done]. simpl. by destruct (decide _).
Qed.

(** X7. A password update changes the login of the updated email only: for
    a username none of whose rows has that email, [verify_user] answers on
    the updated store as it did before, for every password. *)
Theorem update_user_password_frame `{Bcrypt} (s : salt)
    (email new_password username password : string) (d : db) :
  (∀ u, u ∈ users d → user_username u = username → user_email u ≠ email) →
  (verify_user username password
     (update_user_password s email new_password d).2).1 =
  (verify_user username password d).1.
Proof.
  intros Hother. rewrite update_user_password_store.
  destruct (bcrypt_hash s new_password) as [h|exception]; [|done].
  unfold verify_user, init_db, update_password, fetchone.
  cbn [fst users].
  rewrite (first_match_fmap (λ u, user_username u = username))
    by (intros u; by destruct (decide _)).
  destruct (head _) as [u|] eqn:Hrow; [|done]. simpl.
  apply head_Some_elem_of, list_elem_of_filter in Hrow as [Hname Hu].
  rewrite decide_False by (by apply Hother).
  by destruct (bcrypt_verify _ _) as [[|]|].
Qed.

(** * Further properties of the handlers *)

Import Answers.

(** *** reset_password_direct, completely *)

(** What a reset with matching confirmation does, by the row each lookup
    finds and by what [bcrypt.hash] gives. *)
Lemma run_reset_matching `{Bcrypt} username_or_email new_password rng d :
  run (reset_password_direct username_or_email new_password new_password)
    rng d =
  match fetchone (λ u, user_email u = username_or_email) (users d) with
  | Some u =>
      (match bcrypt_hash (rng 1%nat) new_password with
       | Returned _ => reset_done
       | Raised exception => Uncaught exception
       end,
       (update_user_password (rng 1%nat) (user_email u) new_password d).2,
       [existT _ (GetUserByEmail username_or_email);
        existT _ (UpdateUserPassword (user_email u) new_password)])
  | None =>
      match fetchone (λ u, user_username u = username_or_email) (users d) with
      | Some u =>
          (match bcrypt_hash (rng 2%nat) new_password with
           | Returned _ => reset_done
           | Raised exception => Uncaught exception
           end,
           (update_user_password (rng 2%nat) (user_email u) new_password d).2,
           [existT _ (GetUserByEmail username_or_email);
            existT _ (GetUserByUsername username_or_email);
            existT _ (UpdateUserPassword (user_email u) new_password)])
      | None =>
          (forgot_password "No account found with that username or email.",
           d,
           [existT _ (GetUserByEmail username_or_email);
            existT _ (GetUserByUsername username_or_email)])
      end
  end.
Proof.
  rewrite reset_password_direct_matching, run_call. cbn [perform].
  unfold get_user_by_email at 1, init_db.
  destruct (fetchone (λ u, user_email u = username_or_email) (users d))
    as [u|] eqn:Hmail.
  - assert (truthy (Some (user_dict u)) = true) as Htruthy
      by (apply bool_decide_eq_true, user_dict_nonempty).
    rewrite Htruthy. cbn [negb bind]. rewrite Htruthy.
    cbn [mbind option_bind]. rewrite user_dict_email, run_call. cbn [perform].
    apply fetchone_Some in Hmail as [Hu _].
    destruct (bcrypt_hash (rng 1%nat) new_password) as [h|exception] eqn:Hh.
    + pose proof (update_user_password_success (rng 1%nat) (user_email u)
                    new_password d h u Hh Hu eq_refl) as Hok.
      destruct (update_user_password _ _ _ d) as [ok d'].
      simpl in Hok. subst ok. reflexivity.
    + by rewrite (update_user_password_raised _ _ _ _ exception).
  - cbn [truthy negb bind call]. rewrite run_call. cbn [perform].
    unfold get_user_by_username at 1, init_db.
    destruct (fetchone (λ u, user_username u = username_or_email) (users d))
      as [u|] eqn:Hname; [|reflexivity].
    assert (truthy (Some (user_dict u)) = true) as Htruthy
      by (apply bool_decide_eq_true, user_dict_nonempty).
    cbn [run]. rewrite Htruthy.
    cbn [mbind option_bind]. rewrite user_dict_email, run_call. cbn [perform].
    apply fetchone_Some in Hname as [Hu _].
    destruct (bcrypt_hash (rng 2%nat) new_password) as [h|exception] eqn:Hh.
    + pose proof (update_user_password_success (rng 2%nat) (user_email u)
                    new_password d h u Hh Hu eq_refl) as Hok.
      destruct (update_user_password _ _ _ d) as [ok d'].
      simpl in Hok. subst ok. reflexivity.
    + by rewrite (update_user_password_raised _ _ _ _ exception).
Qed.

(** X8. A direct reset ends in one of four ways: the mismatch error, the
    account-not-found error, the success redirect, or an exception that
    [bcrypt.hash] raised on the new password and nothing caught. The
    success redirect is given only when the two passwords match and some
    row has the identifier as email or as username, and always then when
    [bcrypt.hash] accepts the new password. The answer "Failed to reset
    password" and a [KeyError] never occur, on any store. *)
Theorem reset_password_direct_answers `{Bcrypt}
    (username_or_email new_password confirm_new_password : string)
    (rng : nat → salt) (d : db) :
  let answer :=
    (run (reset_password_direct username_or_email new_password
            confirm_new_password) rng d).1.1 in
  (answer = reset_done
   ∨ answer = forgot_password "Passwords do not match."
   ∨ answer = forgot_password "No account found with that username or email."
   ∨ ∃ s exception,
       bcrypt_hash s new_password = Raised exception
       ∧ answer = Uncaught exception)
  ∧ (answer = reset_done →
     new_password = confirm_new_password
     ∧ ∃ u, u ∈ users d ∧ (user_email u = username_or_email
                            ∨ user_username u = username_or_email))
  ∧ ((∀ s, ∃ h, bcrypt_hash s new_password = Returned h) →
     new_password = confirm_new_password →
     (∃ u, u ∈ users d ∧ (user_email u = username_or_email
                           ∨ user_username u = username_or_email)) →
     answer = reset_done).
Proof.
  intros answer. subst answer.
  destruct (decide (new_password = confirm_new_password)) as [<-|Hne].
  - rewrite run_reset_matching.
    destruct (fetchone (λ u, user_email u = username_or_email) (users d))
      as [u|] eqn:Hmail.
    { apply fetchone_Some in Hmail as [Hu Heq]. cbn [fst].
      destruct (bcrypt_hash (rng 1%nat) new_password) as [h|exception] eqn:Hh.
      - split; [by left|]. split; [|done].
        intros _. split; [done|]. exists u. auto.
      - split; [right; right; right; by exists (rng 1%nat), exception|].
        split; [discriminate|].
        intros Hall. destruct (Hall (rng 1%nat)) as [h Hh']. congruence. }
    destruct (fetchone (λ u, user_username u = username_or_email) (users d))
      as [u|] eqn:Hname.
    { apply fetchone_Some in Hname as [Hu Heq]. cbn [fst].
      destruct (bcrypt_hash (rng 2%nat) new_password) as [h|exception] eqn:Hh.
      - split; [by left|]. split; [|done].
        intros _. split; [done|]. exists u. auto.
      - split; [right; right; right; by exists (rng 2%nat), exception|].
        split; [discriminate|].
        intros Hall. destruct (Hall (rng 2%nat)) as [h Hh']. congruence. }
    cbn [fst]. split; [by right; right; left|]. split; [discriminate|].
    intros _ _ (u & Hu & [Heq|Heq]); exfalso.
    + by apply (proj1 (fetchone_None _ _) Hmail u).
    + by apply (proj1 (fetchone_None _ _) Hname u).
  - unfold reset_password_direct. rewrite bool_decide_eq_true_2 by done.
    cbn [run fst]. split; [by right; left|]. split; [discriminate|]. done.
Qed.

(** X9. A direct reset changes passwords only: whatever the request and the
    store, the ids, usernames and emails of the rows are afterwards what
    they were, in the same order, and so is the AUTOINCREMENT counter. *)
Theorem reset_password_direct_keeps_accounts `{Bcrypt}
    (username_or_email new_password confirm_new_password : string)
    (rng : nat → salt) (d : db) :
  let d' :=
    (run (reset_password_direct username_or_email new_password
            confirm_new_password) rng d).1.2 in
  identity <$> users d' = identity <$> users d
  ∧ sqlite_sequence d' = sqlite_sequence d.
Proof.
  intros d'. subst d'.
  destruct (decide (new_password = confirm_new_password)) as [<-|Hne].
  - rewrite run_reset_matching.
    destruct (fetchone (λ u, user_email u = username_or_email) (users d));
      [|destruct (fetchone (λ u, user_username u = username_or_email)
                    (users d))];
      cbn [fst snd]; try done; apply update_user_password_identity.
  - unfold reset_password_direct. by rewrite bool_decide_eq_true_2.
Qed.

(** X10. Resolution by username: on a store with unique usernames and
    emails, when the identifier is the email of no row and the username of
    the row [u], a reset with matching confirmation and a new password that
    [bcrypt.hash] accepts makes the two lookups, then updates by the email
    of [u]: [u] is given the hash of the new password and every other row
    is left as it was. *)
Theorem reset_resolves_username `{Bcrypt}
    (username_or_email new_password confirm_new_password : string)
    (rng : nat → salt) (d : db) (u : user) (h : string) :
  unique_users d →
  u ∈ users d → user_username u = username_or_email →
  (∀ v, v ∈ users d → user_email v ≠ username_or_email) →
  new_password = confirm_new_password →
  bcrypt_hash (rng 2%nat) new_password = Returned h →
  ∃ d',
    run (reset_password_direct username_or_email new_password
           confirm_new_password) rng d =
      (reset_done, d',
       [existT _ (GetUserByEmail username_or_email);
        existT _ (GetUserByUsername username_or_email);
        existT _ (UpdateUserPassword (user_email u) new_password)])
    ∧ users d' =
        (λ v, if decide (v = u) then set_password h v else v) <$> users d.
Proof.
  intros [Hnames Hmails] Hu <- Hnomail <- Hh.
  rewrite run_reset_matching.
  rewrite (proj2 (fetchone_None (λ v, user_email v = user_username u)
                    (users d))) by done.
  rewrite (fetchone_unique user_username) by done. rewrite Hh.
  eexists. split; [reflexivity|].
  rewrite update_user_password_store, Hh. cbn [users].
  unfold update_password. cbn [fst].
  apply list_fmap_ext. intros i v Hi. apply list_elem_of_lookup_2 in Hi.
  destruct (decide (user_email v = user_email u)) as [Heq|Hdiff].
  - rewrite decide_True; [done|].
    by apply (unique_column user_email (users d)).
  - rewrite decide_False; [done|]. by intros ->.
Qed.

(** *** login and register_user *)

Lemma run_login `{Bcrypt} username password rng d :
  run (login username password) rng d =
    (match (verify_user username password d).1 with
     | Returned true =>
         RedirectResponse ("/dashboard?username=" +:+ username) 303
     | Returned false => login_failed
     | Raised exception => Uncaught exception
     end,
     d, [existT _ (VerifyUser username password)]).
Proof.
  unfold login. cbn [bind call]. rewrite run_call. cbn [perform].
  pose proof (verify_user_store username password d) as Hsame.
  destruct (verify_user username password d) as [[[|]|exception] d'];
    simpl in Hsame; by subst d'.
Qed.

(** X11. Login never writes, and its refusal does not tell why: the store
    after a login is the store before, one [verify_user] call is made, and
    an unknown username gets the same answer as a known username with a
    password that [bcrypt.verify] rejects against its stored hash. *)
Theorem login_refusal_uniform `{Bcrypt} (username password : string)
    (rng : nat → salt) (d : db) :
  (run (login username password) rng d).1.2 = d
  ∧ (run (login username password) rng d).2 =
      [existT _ (VerifyUser username password)]
  ∧ ((∀ u, u ∈ users d → user_username u ≠ username) →
       (run (login username password) rng d).1.1 = login_failed)
  ∧ (∀ u, fetchone (λ v, user_username v = username) (users d) = Some u →
       bcrypt_verify password (user_password u) = Returned false →
       (run (login username password) rng d).1.1 = login_failed).
Proof.
  rewrite run_login. cbn [fst snd]. split; [done|]. split; [done|]. split.
  - intros Hnone. by rewrite verify_user_absent.
  - intros u Hrow Hv. unfold verify_user, init_db. by rewrite Hrow, Hv.
Qed.

(** X12. Register, then log in: when no row has the username or the email
    and [bcrypt.hash] accepts the password, [register_user] answers with
    the redirect to the login page, and on the store it leaves a [login]
    with the same username and password answers with the redirect to that
    user's dashboard (for a bcrypt that accepts the secret a hash was made
    from). *)
Theorem register_then_login `{Bcrypt} (username email password : string)
    (rng rng' : nat → salt) (d : db) (h : string) :
  bcrypt_correct →
  (∀ u, u ∈ users d → user_username u ≠ username ∧ user_email u ≠ email) →
  bcrypt_hash (rng 0%nat) password = Returned h →
  (run (register_user username email password) rng d).1.1 =
    RedirectResponse "/login?message=registration_success" 303
  ∧ (run (login username password) rng'
       (run (register_user username email password) rng d).1.2).1.1 =
      RedirectResponse ("/dashboard?username=" +:+ username) 303.
Proof.
  intros Hcorrect Hfree Hh.
  pose proof (proj2 (unique_conflict_false _ _ _) Hfree) as Hc.
  unfold register_user. cbn [bind call]. rewrite run_call. cbn [perform].
  rewrite (create_user_fresh _ _ _ _ _ h) by done. cbn [run fst snd].
  split; [done|].
  rewrite run_login. cbn [fst].
  unfold verify_user, init_db, fetchone. cbn [users].
  rewrite (first_match_app_new (λ u, user_username u = username))
    by (done || intros u Hu; by apply Hfree).
  cbn [user_password]. by rewrite (Hcorrect (rng 0%nat) password h).
Qed.

(** X13. A refused registration changes nothing: when a row already has the
    username or the email, [register_user] answers with the form and its
    error if [bcrypt.hash] accepts the password, and ends in the exception
    if [bcrypt.hash] raises; either way the store is the one it was
    given. *)
Theorem register_user_duplicate `{Bcrypt} (username email password : string)
    (rng : nat → salt) (d : db) (u : user) :
  u ∈ users d → user_username u = username ∨ user_email u = email →
  run (register_user username email password) rng d =
    (match bcrypt_hash (rng 0%nat) password with
     | Returned _ =>
         TemplateResponse "register.html"
           {[ "error" := "Username or Email already exists" ]}
     | Raised exception => Uncaught exception
     end,
     d, [existT _ (CreateUser username email password)]).
Proof.
  intros Hu Hsame. unfold register_user. cbn [bind call].
  rewrite run_call. cbn [perform].
  destruct (bcrypt_hash (rng 0%nat) password) as [h|exception] eqn:Hh.
  - by rewrite (create_user_conflict _ _ _ _ _ h u).
  - by rewrite (create_user_raised _ _ _ _ _ exception).
Qed.

(** X14. Reset, then log in: on a store with unique usernames and emails,
    after a direct reset by the email of the row [u] with matching
    confirmation and a new password that [bcrypt.hash] accepts, a login as
    [u] with the new password is redirected to the dashboard (for a bcrypt
    that accepts the secret a hash was made from), and a login with a
    password that [bcrypt.verify] rejects against the new hash is
    refused. *)
Theorem reset_then_login `{Bcrypt} (new_password confirm_new_password : string)
    (rng rng' : nat → salt) (d : db) (u : user) (h : string) :
  unique_users d → bcrypt_correct →
  u ∈ users d → new_password = confirm_new_password →
  bcrypt_hash (rng 1%nat) new_password = Returned h →
  let d' :=
    (run (reset_password_direct (user_email u) new_password
            confirm_new_password) rng d).1.2 in
  (run (login (user_username u) new_password) rng' d').1.1 =
    RedirectResponse ("/dashboard?username=" +:+ user_username u) 303
  ∧ ∀ other, bcrypt_verify other h = Returned false →
      (run (login (user_username u) other) rng' d').1.1 = login_failed.
Proof.
  intros Huniq Hcorrect Hu <- Hh d'. subst d'.
  rewrite run_reset_matching.
  rewrite (fetchone_unique user_email) by (done || apply Huniq).
  cbn [fst snd].
  set (d' := (update_user_password (rng 1%nat) (user_email u) new_password d).2).
  assert (unique_users d') as [Hnames' _]
    by by apply update_user_password_unique.
  assert (set_password h u ∈ users d') as Hu'.
  { subst d'. rewrite update_user_password_store, Hh. cbn [users].
    pose proof (update_password_elem h (user_email u) (users d) u Hu) as Hin.
    by rewrite decide_True in Hin. }
  split; [|intros other Hother]; rewrite run_login; cbn [fst];
    change (verify_user (user_username u))
      with (verify_user (user_username (set_password h u)));
    rewrite verify_user_found by done; cbn [fst set_password user_password].
  - by rewrite (Hcorrect (rng 1%nat) new_password h).
  - by rewrite Hother.
Qed.

(** * Properties of the password reset tokens *)

Module TokenFacts.
Import Tokens.

Lemma supersede_tokens email (l : list reset_token) :
  token_token <$> supersede email l = token_token <$> l.
Proof.
  unfold supersede. rewrite <- list_fmap_compose.
  apply list_fmap_ext. intros i r _. simpl. by destruct (decide _).
Qed.

Lemma supersede_taken email token (l : list reset_token) :
  Exists (λ r, token_token r = token) (supersede email l) ↔
  ∃ r, r ∈ l ∧ token_token r = token.
Proof.
  rewrite Exists_exists. split.
  - intros (r & Hr & Htok). apply list_elem_of_fmap in Hr as (r0 & -> & Hr0).
    exists r0. split; [done|]. revert Htok. by destruct (decide _).
  - intros (r & Hr & Htok).
    exists (if decide (token_email r = email ∧ token_used r = 0)
            then set_used r else r).
    split; [apply list_elem_of_fmap; by exists r|]. by destruct (decide _).
Qed.

Lemma supersede_used email (l : list reset_token) r :
  r ∈ supersede email l → token_email r = email → token_used r ≠ 0.
Proof.
  intros Hr. apply list_elem_of_fmap in Hr as (r0 & -> & _).
  destruct (decide (token_email r0 = email ∧ token_used r0 = 0))
    as [_|Hno]; [done|].
  intros Hmail Hunused. by apply Hno.
Qed.

Lemma save_fresh email token expires_at t :
  (∀ r, r ∈ tokens t → token_token r ≠ token) →
  save_password_reset_token email token expires_at t =
    (true,
     {| tokens := supersede email (tokens t) ++
          [ResetToken
             (Z.max (token_sequence t)
                (max_token_id (supersede email (tokens t))) + 1)
             email token expires_at 0];
        token_sequence :=
          Z.max (token_sequence t)
            (max_token_id (supersede email (tokens t))) + 1 |}).
Proof.
  intros Hfree. unfold save_password_reset_token, init_db.
  rewrite bool_decide_eq_false_2; [done|].
  rewrite supersede_taken. intros (r & Hr & Htok). by apply (Hfree r).
Qed.

Lemma save_taken email token expires_at t r :
  r ∈ tokens t → token_token r = token →
  save_password_reset_token email token expires_at t = (false, t).
Proof.
  intros Hr Htok. unfold save_password_reset_token, init_db.
  rewrite bool_decide_eq_true_2; [done|].
  rewrite supersede_taken. by exists r.
Qed.

Lemma save_true email token expires_at t :
  (save_password_reset_token email token expires_at t).1 = true →
  ∀ r, r ∈ tokens t → token_token r ≠ token.
Proof.
  intros Hok r Hr Htok. by rewrite (save_taken _ _ _ _ r) in Hok.
Qed.

Lemma verify_store token now t :
  (verify_password_reset_token token now t).2 = t.
Proof.
  unfold verify_password_reset_token, init_db.
  destruct (head _); [|done]. by destruct (_ && _).
Qed.

(** What [verify_password_reset_token] answers, by the row it fetches. *)
Lemma verify_Some token now t email :
  (verify_password_reset_token token now t).1 = Some email ↔
  ∃ r, head (filter (λ r, token_token r = token) (tokens t)) = Some r
       ∧ token_email r = email ∧ token_used r = 0 ∧ now < token_expires_at r.
Proof.
  unfold verify_password_reset_token, init_db.
  destruct (head _) as [r|]; [|split; [done|by intros (? & ? & _)]].
  destruct (bool_decide (token_used r = 0)) eqn:Hused;
    destruct (bool_decide (now < token_expires_at r)) eqn:Hnow; simpl.
  - apply bool_decide_eq_true in Hused, Hnow. split.
    + intros [= <-]. by exists r.
    + by intros (? & [= <-] & <- & _).
  - apply bool_decide_eq_false in Hnow.
    split; [done|]. by intros (? & [= <-] & _ & _ & ?).
  - apply bool_decide_eq_false in Hused.
    split; [done|]. by intros (? & [= <-] & _ & ? & _).
  - apply bool_decide_eq_false in Hused.
    split; [done|]. by intros (? & [= <-] & _ & ? & _).
Qed.

(** X15. Token round trip: for a token the table does not hold yet,
    [save_password_reset_token] returns true, and on the table it leaves
    [verify_password_reset_token] returns the email at every time before
    the expiry and [None] from the expiry on. *)
Theorem save_then_verify (email token : string) (expires_at now : Z)
    (t : token_db) :
  (∀ r, r ∈ tokens t → token_token r ≠ token) →
  let saved := save_password_reset_token email token expires_at t in
  saved.1 = true
  ∧ (now < expires_at →
     (verify_password_reset_token token now saved.2).1 = Some email)
  ∧ (expires_at ≤ now →
     (verify_password_reset_token token now saved.2).1 = None).
Proof.
  intros Hfree saved. subst saved. rewrite save_fresh by done.
  cbn [fst snd]. split; [done|].
  unfold verify_password_reset_token, init_db. cbn [tokens].
  rewrite (first_match_app_new (λ r, token_token r = token)); [|..|done].
  - cbn [token_used token_expires_at token_email].
    rewrite bool_decide_eq_true_2 by done. simpl. split; intros Hnow.
    + by rewrite bool_decide_eq_true_2.
    + rewrite bool_decide_eq_false_2; [done|lia].
  - intros r Hr Htok. apply list_elem_of_fmap in Hr as (r0 & -> & Hr0).
    apply (Hfree r0 Hr0). revert Htok. by destruct (decide _).
Qed.

(** X16. A new token supersedes the earlier ones of its email: after a
    [save_password_reset_token] for an email that returned true, the only
    token that verifies to that email, at any time, is the new one. *)
Theorem save_supersedes (email token : string) (expires_at : Z) (t : token_db) :
  (save_password_reset_token email token expires_at t).1 = true →
  ∀ other now,
    (verify_password_reset_token other now
       (save_password_reset_token email token expires_at t).2).1 = Some email →
    other = token.
Proof.
  intros Hok other now. pose proof (save_true _ _ _ _ Hok) as Hfree.
  rewrite save_fresh by done. cbn [snd].
  rewrite verify_Some. cbn [tokens].
  intros (r & Hrow & Hmail & Hunused & _).
  apply head_Some_elem_of, list_elem_of_filter in Hrow as [Htok Hr].
  apply elem_of_app in Hr as [Hr|Hr].
  - by destruct (supersede_used email (tokens t) r).
  - apply list_elem_of_singleton in Hr as ->. done.
Qed.

(** X17. A refused token changes nothing: when the table already holds the
    token, [save_password_reset_token] returns false and the table is the
    one it was given; the unused tokens of the email stay unused. *)
Theorem save_duplicate_rolls_back (email token : string) (expires_at : Z)
    (t : token_db) (r : reset_token) :
  r ∈ tokens t → token_token r = token →
  save_password_reset_token email token expires_at t = (false, t).
Proof.
  intros Hr Htok. unfold save_password_reset_token, init_db.
  assert (Exists (λ r, token_token r = token) (supersede email (tokens t)))
    as Hdup by (rewrite supersede_taken; by exists r).
  by rewrite bool_decide_eq_true_2.
Qed.

(** *** invalidate_token *)

Lemma invalidate_tokens token t :
  tokens (invalidate_token token t).2 = mark_token token <$> tokens t.
Proof. done. Qed.

Lemma verify_None_used token now t :
  (∀ r, r ∈ tokens t → token_token r = token → token_used r ≠ 0) →
  (verify_password_reset_token token now t).1 = None.
Proof.
  intros Hused.
  destruct (verify_password_reset_token token now t).1 as [email|] eqn:Hv;
    [|done].
  apply verify_Some in Hv as (r & Hrow & _ & Hunused & _).
  apply head_Some_elem_of, list_elem_of_filter in Hrow as [Htok Hr].
  by destruct (Hused r Hr Htok).
Qed.

(** X18. Invalidation: [invalidate_token] returns true exactly when the
    table holds the token; afterwards the token verifies at no time; when
    the table does not hold it, the table is left as it was. *)
Theorem invalidate_then_verify (token : string) (t : token_db) :
  ((invalidate_token token t).1 = true ↔
     ∃ r, r ∈ tokens t ∧ token_token r = token)
  ∧ (∀ now,
       (verify_password_reset_token token now (invalidate_token token t).2).1 =
         None)
  ∧ ((∀ r, r ∈ tokens t → token_token r ≠ token) →
     invalidate_token token t = (false, t)).
Proof.
  split; [|split].
  - unfold invalidate_token, init_db. cbn [fst].
    rewrite bool_decide_eq_true. split.
    + intros Hpos.
      destruct (filter (λ r, token_token r = token) (tokens t)) as [|r l] eqn:Hf;
        [simpl in Hpos; lia|].
      exists r. apply and_comm, (list_elem_of_filter (λ r, token_token r = token)).
      rewrite Hf. left.
    + intros (r & Hr & Htok).
      assert (r ∈ filter (λ r, token_token r = token) (tokens t)) as Hin
        by (by apply list_elem_of_filter).
      destruct (filter _ (tokens t)); simpl; [|lia].
      by apply not_elem_of_nil in Hin.
  - intros now. apply verify_None_used. rewrite invalidate_tokens.
    intros r Hr Htok. apply list_elem_of_fmap in Hr as (r0 & -> & _).
    unfold mark_token in *. by destruct (decide (token_token r0 = token)).
  - intros Hnone. unfold invalidate_token, init_db.
    assert (filter (λ r, token_token r = token) (tokens t) = []) as ->.
    { induction (tokens t) as [|r l IH]; [done|].
      rewrite filter_cons, decide_False by (apply Hnone; left).
      apply IH. intros r0 Hr0. apply Hnone. by right. }
    assert ((λ r, if decide (token_token r = token) then set_used r else r)
              <$> tokens t = tokens t) as ->.
    { induction (tokens t) as [|r l IH]; [done|].
      rewrite fmap_cons, decide_False by (apply Hnone; left).
      f_equal. apply IH. intros r0 Hr0. apply Hnone. by right. }
    by destruct t.
Qed.

(** X19. Invalidating one token leaves the others as they were: a different
    token verifies after [invalidate_token] exactly as before, at every
    time. *)
Theorem invalidate_frame (token other : string) (now : Z) (t : token_db) :
  other ≠ token →
  (verify_password_reset_token other now (invalidate_token token t).2).1 =
  (verify_password_reset_token other now t).1.
Proof.
  intros Hne. unfold verify_password_reset_token at 1, init_db.
  rewrite invalidate_tokens.
  rewrite (first_match_fmap (λ r, token_token r = other))
    by (intros r; unfold mark_token; by destruct (decide _)).
  unfold verify_password_reset_token, init_db.
  destruct (head _) as [r|] eqn:Hrow; [|done]. simpl.
  apply head_Some_elem_of, list_elem_of_filter in Hrow as [Htok _].
  unfold mark_token. rewrite decide_False by congruence.
  by destruct (_ && _).
Qed.

(** *** verify_password_reset_token *)

(** X20. What a verified token tells, and how time acts on it: when
    [verify_password_reset_token] returns an email, the table holds a row
    with that token and email, unused and not yet expired; the table is
    never changed; and a token refused at one time is refused at every
    later time. *)
Theorem verify_sound_and_monotone (token : string) (now : Z) (t : token_db) :
  (∀ email, (verify_password_reset_token token now t).1 = Some email →
     ∃ r, r ∈ tokens t ∧ token_token r = token ∧ token_email r = email
          ∧ token_used r = 0 ∧ now < token_expires_at r)
  ∧ (verify_password_reset_token token now t).2 = t
  ∧ (∀ later, now ≤ later →
       (verify_password_reset_token token now t).1 = None →
       (verify_password_reset_token token later t).1 = None).
Proof.
  split; [|split].
  - intros email Hv. apply verify_Some in Hv as (r & Hrow & Hrest).
    apply head_Some_elem_of, list_elem_of_filter in Hrow as [Htok Hr].
    by exists r.
  - apply verify_store.
  - intros later Hlater. unfold verify_password_reset_token, init_db.
    destruct (head _) as [r|]; [|done].
    destruct (bool_decide (token_used r = 0)); simpl; [|done].
    destruct (bool_decide (now < token_expires_at r)) eqn:Hnow; [done|].
    intros _. apply bool_decide_eq_false in Hnow.
    rewrite bool_decide_eq_false_2; [done|lia].
Qed.

(** X21. Saving a token for one email leaves the tokens of the other emails
    valid: a token that verified to a different email before
    [save_password_reset_token] verifies to it afterwards, whether the save
    returned true or false. *)
Theorem save_frame (email token other owner : string) (expires_at now : Z)
    (t : token_db) :
  (verify_password_reset_token other now t).1 = Some owner →
  owner ≠ email →
  (verify_password_reset_token other now
     (save_password_reset_token email token expires_at t).2).1 = Some owner.
Proof.
  intros Hv Hne.
  destruct (bool_decide (Exists (λ r, token_token r = token)
              (supersede email (tokens t)))) eqn:Hdup.
  { unfold save_password_reset_token, init_db. by rewrite Hdup. }
  apply bool_decide_eq_false in Hdup. rewrite supersede_taken in Hdup.
  rewrite save_fresh by (intros r Hr Htok; apply Hdup; by exists r).
  cbn [snd]. apply verify_Some in Hv as (r & Hrow & Hmail & Hunused & Hnow).
  apply verify_Some. exists r. cbn [tokens]. split; [|done].
  pose proof Hrow as Hin.
  apply head_Some_elem_of, list_elem_of_filter in Hin as [Htok Hr].
  rewrite (first_match_app_other (λ r, token_token r = other)).
  - unfold supersede.
    rewrite (first_match_fmap (λ r, token_token r = other))
      by (intros r0; by destruct (decide _)).
    rewrite Hrow. simpl. rewrite decide_False; [done|].
    intros [Heq _]. congruence.
  - simpl. intros <-. apply Hdup. by exists r.
Qed.

(** *** Invariants of the token table *)

(** Marking rows as used can only shrink the list of unused rows. *)
Lemma unused_after_marking (C : reset_token → Prop) `{∀ r, Decision (C r)}
    (l : list reset_token) :
  (token_email <$> filter (λ r, token_used r = 0)
     ((λ r, if decide (C r) then set_used r else r) <$> l))
  `sublist_of` (token_email <$> filter (λ r, token_used r = 0) l).
Proof.
  induction l as [|r l IH]; [constructor|].
  rewrite fmap_cons, !filter_cons.
  destruct (decide (C r)) as [_|_].
  - rewrite decide_False by done.
    destruct (decide (token_used r = 0)); [by apply sublist_cons|done].
  - destruct (decide (token_used r = 0)); [by apply sublist_skip|done].
Qed.

Lemma save_unique email token expires_at t :
  unique_tokens t →
  unique_tokens (save_password_reset_token email token expires_at t).2.
Proof.
  intros Huniq.
  destruct (bool_decide (Exists (λ r, token_token r = token)
              (supersede email (tokens t)))) eqn:Hdup.
  { unfold save_password_reset_token, init_db. by rewrite Hdup. }
  apply bool_decide_eq_false in Hdup. rewrite supersede_taken in Hdup.
  rewrite save_fresh by (intros r Hr Htok; apply Hdup; by exists r).
  unfold unique_tokens. cbn [snd tokens].
  rewrite fmap_app, supersede_tokens. apply NoDup_app.
  split; [done|]. split; [|apply NoDup_singleton].
  intros tok Htok Hin. apply list_elem_of_singleton in Hin as ->.
  apply list_elem_of_fmap in Htok as (r & Heq & Hr).
  apply Hdup. by exists r.
Qed.

Lemma save_one_unused email token expires_at t :
  one_unused_per_email t →
  one_unused_per_email (save_password_reset_token email token expires_at t).2.
Proof.
  intros Hone.
  destruct (bool_decide (Exists (λ r, token_token r = token)
              (supersede email (tokens t)))) eqn:Hdup.
  { unfold save_password_reset_token, init_db. by rewrite Hdup. }
  apply bool_decide_eq_false in Hdup. rewrite supersede_taken in Hdup.
  rewrite save_fresh by (intros r Hr Htok; apply Hdup; by exists r).
  unfold one_unused_per_email. cbn [snd tokens].
  rewrite filter_app, fmap_app, filter_cons, decide_True by done.
  apply NoDup_app. split; [|split; [|apply NoDup_singleton]].
  - eapply sublist_NoDup; [exact Hone|].
    apply (unused_after_marking (λ r, token_email r = email ∧ token_used r = 0)).
  - intros mail Hmail Hin. simpl in Hin.
    apply list_elem_of_singleton in Hin as ->.
    apply list_elem_of_fmap in Hmail as (r & Heq & Hr).
    apply list_elem_of_filter in Hr as [Hunused Hr].
    by destruct (supersede_used email (tokens t) r).
Qed.

Lemma invalidate_unique token t :
  unique_tokens t → unique_tokens (invalidate_token token t).2.
Proof.
  unfold unique_tokens. rewrite invalidate_tokens.
  assert (token_token <$> (mark_token token <$> tokens t) =
          token_token <$> tokens t) as ->; [|done].
  rewrite <- list_fmap_compose. apply list_fmap_ext. intros i r _. simpl.
  unfold mark_token. by destruct (decide _).
Qed.

Lemma invalidate_one_unused token t :
  one_unused_per_email t → one_unused_per_email (invalidate_token token t).2.
Proof.
  unfold one_unused_per_email. rewrite invalidate_tokens. intros Hone.
  eapply sublist_NoDup; [exact Hone|].
  apply (unused_after_marking (λ r, token_token r = token)).
Qed.

(** X22. Two invariants of the token table: no two rows hold the same
    token, and no email has more than one unused token. Both hold of the
    empty table, are kept by the three operations, and so hold of every
    reachable table. *)
Theorem token_invariants :
  (unique_tokens (init_db None) ∧ one_unused_per_email (init_db None))
  ∧ (∀ o t, unique_tokens t → unique_tokens (token_exec o t))
  ∧ (∀ o t, one_unused_per_email t → one_unused_per_email (token_exec o t))
  ∧ (∀ t, token_reachable t → unique_tokens t ∧ one_unused_per_email t).
Proof.
  assert (unique_tokens (init_db None) ∧ one_unused_per_email (init_db None))
    as Hinit by (split; apply NoDup_nil_2).
  assert (∀ o t, unique_tokens t → unique_tokens (token_exec o t)) as Huniq.
  { intros [email token expires_at|token now|token] t Ht; cbn [token_exec].
    - by apply save_unique.
    - by rewrite verify_store.
    - by apply invalidate_unique. }
  assert (∀ o t, one_unused_per_email t → one_unused_per_email (token_exec o t))
    as Hone.
  { intros [email token expires_at|token now|token] t Ht; cbn [token_exec].
    - by apply save_one_unused.
    - by rewrite verify_store.
    - by apply invalidate_one_unused. }
  split; [done|]. split; [done|]. split; [done|].
  intros t Hreach. induction Hreach as [|o t _ [IHu IHo]]; [done|].
  split; [by apply Huniq | by apply Hone].
Qed.

(** *** Used once, used forever *)

Lemma spent_rows token t r :
  spent token t → r ∈ tokens t → token_token r = token → token_used r ≠ 0.
Proof.
  intros (Huniq & r0 & Hr0 & Htok0 & Hused) Hr Htok.
  assert (r = r0) as ->; [|done].
  revert Huniq Hr Hr0. unfold unique_tokens.
  induction (tokens t) as [|x l IH]; intros Hnd Hr Hr0.
  - by apply not_elem_of_nil in Hr.
  - rewrite fmap_cons in Hnd. apply NoDup_cons in Hnd as [Hx Hnd].
    apply elem_of_cons in Hr as [->|Hr]; apply elem_of_cons in Hr0 as [->|Hr0];
      [done| | |by apply IH]; exfalso; apply Hx.
    + rewrite Htok, <- Htok0. by apply list_elem_of_fmap_2.
    + rewrite Htok0, <- Htok. by apply list_elem_of_fmap_2.
Qed.

Lemma spent_exec token o t : spent token t → spent token (token_exec o t).
Proof.
  intros Hspent. pose proof Hspent as (Huniq & r & Hr & Htok & Hused).
  destruct o as [email new expires_at|other now|other]; cbn [token_exec].
  - split; [by apply save_unique|].
    destruct (decide (new = token)) as [->|Hne].
    { rewrite (save_taken _ _ _ _ r) by done. by exists r. }
    destruct (bool_decide (Exists (λ r, token_token r = new)
                (supersede email (tokens t)))) eqn:Hdup.
    { unfold save_password_reset_token, init_db. rewrite Hdup. by exists r. }
    apply bool_decide_eq_false in Hdup. rewrite supersede_taken in Hdup.
    rewrite save_fresh by (intros r0 Hr0 Htok0; apply Hdup; by exists r0).
    cbn [snd tokens].
    exists (if decide (token_email r = email ∧ token_used r = 0)
            then set_used r else r).
    split; [|by destruct (decide _)].
    apply elem_of_app. left. apply list_elem_of_fmap. by exists r.
  - by rewrite verify_store.
  - split; [by apply invalidate_unique|].
    exists (mark_token other r). rewrite invalidate_tokens.
    split; [by apply list_elem_of_fmap_2|].
    unfold mark_token. by destruct (decide _).
Qed.

(** X23. Used once, used forever: on a table with unique tokens, a token
    whose row is marked used verifies at no time, and still does not after
    any sequence of the three operations: it cannot be saved again, and no
    operation clears the mark. *)
Theorem used_token_stays_used (token : string) (t : token_db)
    (r : reset_token) (later : list token_operation) (now : Z) :
  unique_tokens t →
  r ∈ tokens t → token_token r = token → token_used r ≠ 0 →
  (verify_password_reset_token token now
     (foldl (λ t o, token_exec o t) t later)).1 = None.
Proof.
  intros Huniq Hr Htok Hused.
  assert (spent token t) as Hspent by (split; [done|by exists r]).
  clear Huniq Hr Htok Hused r. revert t Hspent.
  induction later as [|o later IH]; intros t Hspent; simpl.
  - apply verify_None_used. intros r. by apply spent_rows.
  - apply IH. by apply spent_exec.
Qed.

End TokenFacts.

(** * Further properties of the conversion endpoints *)

Import Paths.

(** *** Paths under the upload directory *)

Lemma string_length_app (s t : string) :
  String.length (s +:+ t) = (String.length s + String.length t)%nat.
Proof. induction s as [|c s IH]; simpl; [done|]. by rewrite IH. Qed.

Lemma string_app_cancel_r (s1 s2 t : string) : s1 +:+ t = s2 +:+ t → s1 = s2.
Proof.
  revert s2. induction s1 as [|c1 s1 IH]; intros [|c2 s2] Heq.
  - done.
  - apply (f_equal String.length) in Heq.
    change (String c2 s2 +:+ t) with (String c2 (s2 +:+ t)) in Heq.
    cbn [String.append String.length] in Heq.
    rewrite !string_length_app in Heq. simpl in Heq. lia.
  - apply (f_equal String.length) in Heq.
    change (String c1 s1 +:+ t) with (String c1 (s1 +:+ t)) in Heq.
    cbn [String.append String.length] in Heq.
    rewrite !string_length_app in Heq. simpl in Heq. lia.
  - injection Heq as -> Heq. f_equal. by apply IH.
Qed.

Lemma last_char_app (s t : string) :
  t ≠ EmptyString → last_char (s +:+ t) = last_char t.
Proof.
  intros Ht. induction s as [|c s IH]; simpl; [done|].
  rewrite IH. destruct (s +:+ t) eqn:Happ; [|done].
  destruct s; simpl in Happ; [done|discriminate].
Qed.

Lemma path_join_upload (name : string) :
  path_join UPLOAD_DIR name =
    if String.prefix "/" name then name else "uploads/" +:+ name.
Proof. unfold path_join. by destruct (String.prefix "/" name). Qed.

Lemma path_join_last (name ext : string) :
  ext ≠ EmptyString →
  last_char (path_join UPLOAD_DIR (name +:+ ext)) = last_char ext.
Proof.
  intros Hext. rewrite path_join_upload.
  destruct (String.prefix "/" (name +:+ ext)).
  - by apply last_char_app.
  - rewrite (last_char_app "uploads/" (name +:+ ext));
      [by apply last_char_app|].
    destruct name; [done|discriminate].
Qed.

Lemma pdf_path_inj (a b : string) :
  path_join UPLOAD_DIR (a +:+ ".pdf") = path_join UPLOAD_DIR (b +:+ ".pdf") →
  a = b.
Proof.
  rewrite !path_join_upload.
  destruct (String.prefix "/" (a +:+ ".pdf")) eqn:Ha;
    destruct (String.prefix "/" (b +:+ ".pdf")) eqn:Hb; intros Heq.
  - by apply string_app_cancel_r in Heq.
  - rewrite Heq in Ha. vm_compute in Ha. discriminate.
  - rewrite <- Heq in Hb. vm_compute in Hb. discriminate.
  - apply (inj (String.append "uploads/")) in Heq.
    by apply string_app_cancel_r in Heq.
Qed.

Lemma docx_path_not_pdf (a b : string) :
  path_join UPLOAD_DIR (a +:+ ".docx") ≠ path_join UPLOAD_DIR (b +:+ ".pdf").
Proof.
  intros Heq. apply (f_equal last_char) in Heq.
  rewrite !path_join_last in Heq by done. discriminate.
Qed.

(** X24. One output file per identifier, apart from the uploads: two
    identifiers with the same output path are the same identifier, and the
    path an upload is written to is the output path of no identifier. *)
Theorem upload_paths_apart (a b : string) :
  (path_join UPLOAD_DIR (a +:+ ".pdf") = path_join UPLOAD_DIR (b +:+ ".pdf") →
     a = b)
  ∧ path_join UPLOAD_DIR (a +:+ ".docx") ≠ path_join UPLOAD_DIR (b +:+ ".pdf").
Proof. split; [apply pdf_path_inj | apply docx_path_not_pdf]. Qed.

Section ConvertMore.
Variable libreoffice :
  list string → gmap string string → run_result * gmap string string.

(** X25. Convert, then download: when [convert_to_pdf] answers [completed],
    a download of the identifier on the file system it leaves is the file
    at the output path, named converted.pdf; when it answers that the
    output file was not found, that download is the 404 answer. *)
Theorem convert_then_download (file_id content : string)
    (fs : gmap string string) :
  let converted := convert_to_pdf libreoffice file_id content fs in
  (converted.1 =
     JSONResponse {[ "status" := "completed"; "file_id" := file_id ]} 200 →
   download_pdf file_id converted.2 =
     FileResponse (path_join UPLOAD_DIR (file_id +:+ ".pdf")) "converted.pdf")
  ∧ (converted.1 = failed "PDF output file not found after conversion." →
     download_pdf file_id converted.2 =
       JSONResponse {[ "error" := "File not found" ]} 404).
Proof.
  intros converted. subst converted. unfold convert_to_pdf, download_pdf.
  destruct (libreoffice _ _) as [[returncode|] fs1]; cbn [fst snd].
  - case_bool_decide as Hcode; cbn [fst snd].
    + split; intros Hanswer; [discriminate|].
      apply (f_equal (λ r, match r with
                           | JSONResponse c _ => c !! "message"
                           | _ => None
                           end)) in Hanswer.
      vm_compute in Hanswer. discriminate.
    + destruct (path_exists _ fs1) eqn:Hout; cbn [fst snd];
        rewrite Hout; split; intros Hanswer; try done; discriminate.
  - split; intros Hanswer; [discriminate|].
    apply (f_equal (λ r, match r with
                         | JSONResponse c _ => c !! "message"
                         | _ => None
                         end)) in Hanswer.
    vm_compute in Hanswer. discriminate.
Qed.

(** X26. An upload is never served and overwrites no output: when the
    converter leaves the file system as it found it, every download, of
    any identifier, answers after [convert_to_pdf] as it did before. *)
Theorem upload_alone_changes_no_download (file_id content other : string)
    (fs : gmap string string) :
  (∀ args files, (libreoffice args files).2 = files) →
  download_pdf other (convert_to_pdf libreoffice file_id content fs).2 =
    download_pdf other fs.
Proof.
  intros Hidle.
  assert ((convert_to_pdf libreoffice file_id content fs).2 =
          <[path_join UPLOAD_DIR (file_id +:+ ".docx") := content]> fs) as ->.
  { unfold convert_to_pdf.
    pose proof (Hidle (convert_command (path_join UPLOAD_DIR (file_id +:+ ".docx")))
                  (<[path_join UPLOAD_DIR (file_id +:+ ".docx") := content]> fs))
      as Hsame.
    destruct (libreoffice _ _) as [[returncode|] fs1]; simpl in Hsame; subst fs1;
      [|done].
    case_bool_decide; [done|]. by destruct (path_exists _ _). }
  unfold download_pdf, path_exists.
  rewrite lookup_insert_ne by apply docx_path_not_pdf. done.
Qed.

End ConvertMore.

(** * The further properties on the concrete stores *)

Section MoreExamples.
Import Example.

(** Case analysis on a row of a concrete table. *)
Local Ltac each_row Hu :=
  repeat (apply elem_of_cons in Hu as [->|Hu];
          [try discriminate; try (split; discriminate)|]);
  try (by apply not_elem_of_nil in Hu).

Lemma create_then_verify_witness :
  (create_user "v"%char "carol" "carol@example.org" "hunter2" registered).1 =
    Returned true
  ∧ (verify_user "carol" "hunter2"
       (create_user "v"%char "carol" "carol@example.org" "hunter2"
          registered).2).1 = Returned true
  ∧ (verify_user "carol" "hunter3"
       (create_user "v"%char "carol" "carol@example.org" "hunter2"
          registered).2).1 = Returned false.
Proof.
  assert ((create_user "v"%char "carol" "carol@example.org" "hunter2"
             registered).1 = Returned true) as Hok by reflexivity.
  destruct (create_then_verify (H := passlib_bcrypt) "v"%char "carol"
              "carol@example.org" "hunter2" registered Hok)
    as (Haccept & h & Hh & Hall).
  split; [exact Hok|]. split.
  - apply Haccept, passlib_bcrypt_correct.
  - rewrite Hall. injection Hh as <-. reflexivity.
Defined.

Lemma create_then_lookup_witness :
  (create_user "v"%char "carol" "carol@example.org" "hunter2" registered).1 =
    Returned true
  ∧ ∃ rowid,
      (get_user_by_email "carol@example.org"
         (create_user "v"%char "carol" "carol@example.org" "hunter2"
            registered).2).1 =
        Some {[ "id" := VInt rowid; "username" := VStr "carol";
                "email" := VStr "carol@example.org" ]}
      ∧ user_id bob < rowid.
Proof.
  assert ((create_user "v"%char "carol" "carol@example.org" "hunter2"
             registered).1 = Returned true) as Hok by reflexivity.
  destruct (create_then_lookup (H := passlib_bcrypt) "v"%char "carol"
              "carol@example.org" "hunter2" registered Hok)
    as (rowid & Hmail & _ & Habove).
  split; [exact Hok|]. exists rowid. split; [exact Hmail|].
  apply Habove, bob_registered.
Defined.

Lemma update_user_password_frame_witness :
  (verify_user "alice" "wonderland"
     (update_user_password "u"%char "bob@example.org" "hunter2" registered).2).1 =
  (verify_user "alice" "wonderland" registered).1.
Proof.
  apply (update_user_password_frame (H := passlib_bcrypt) "u"%char
           "bob@example.org" "hunter2" "alice" "wonderland" registered).
  intros u Hu. rewrite registered_users in Hu. each_row Hu.
Defined.

Lemma reset_resolves_username_witness :
  ∃ d',
    run (reset_password_direct "alice" "hunter2" "hunter2") rng registered =
      (reset_done, d',
       [existT _ (GetUserByEmail "alice");
        existT _ (GetUserByUsername "alice");
        existT _ (UpdateUserPassword "alice@example.org" "hunter2")])
    ∧ users d' = [User 1 "alice" "alice@example.org" "zhunter2"; bob].
Proof.
  destruct (reset_resolves_username "alice" "hunter2" "hunter2" rng registered
              alice "zhunter2" registered_unique alice_registered eq_refl)
    as (d' & Hrun & Husers); [|reflexivity|reflexivity|].
  - intros v Hv. rewrite registered_users in Hv. each_row Hv.
  - exists d'. split; [exact Hrun|]. rewrite Husers. reflexivity.
Defined.

Lemma register_then_login_witness :
  (run (register_user "carol" "carol@example.org" "hunter2") rng registered).1.1 =
    RedirectResponse "/login?message=registration_success" 303
  ∧ (run (login "carol" "hunter2") rng
       (run (register_user "carol" "carol@example.org" "hunter2") rng
          registered).1.2).1.1 =
      RedirectResponse "/dashboard?username=carol" 303.
Proof.
  apply (register_then_login "carol" "carol@example.org" "hunter2" rng rng
           registered "zhunter2" passlib_bcrypt_correct); [|reflexivity].
  intros u Hu. rewrite registered_users in Hu. each_row Hu.
Defined.

Lemma register_user_duplicate_witness :
  run (register_user "dave" "bob@example.org" "hunter2") rng registered =
    (TemplateResponse "register.html"
       {[ "error" := "Username or Email already exists" ]},
     registered,
     [existT _ (CreateUser "dave" "bob@example.org" "hunter2")])
  ∧ run (register_user "dave" "bob@example.org" nul_password) rng registered =
      (Uncaught "PasswordValueError", registered,
       [existT _ (CreateUser "dave" "bob@example.org" nul_password)]).
Proof.
  split.
  - apply (register_user_duplicate "dave" "bob@example.org" "hunter2" rng
             registered bob bob_registered).
    by right.
  - apply (register_user_duplicate "dave" "bob@example.org" nul_password rng
             registered bob bob_registered).
    by right.
Defined.

Lemma reset_then_login_witness :
  (run (login "alice" "hunter2") rng
     (run (reset_password_direct "alice@example.org" "hunter2" "hunter2")
        rng registered).1.2).1.1 =
    RedirectResponse "/dashboard?username=alice" 303
  ∧ (run (login "alice" "wonderland") rng
       (run (reset_password_direct "alice@example.org" "hunter2" "hunter2")
          rng registered).1.2).1.1 = login_failed.
Proof.
  destruct (reset_then_login "hunter2" "hunter2" rng rng registered alice
              "zhunter2" registered_unique passlib_bcrypt_correct
              alice_registered eq_refl eq_refl) as [Hnew Hother].
  split; [exact Hnew|]. apply Hother. reflexivity.
Defined.

Lemma upload_alone_changes_no_download_witness :
  download_pdf "0a1b"
    (convert_to_pdf converter_missing "7f3c" "docx"
       {[ "uploads/0a1b.pdf" := "%PDF" ]}).2 =
  FileResponse "uploads/0a1b.pdf" "converted.pdf".
Proof.
  rewrite (upload_alone_changes_no_download converter_missing "7f3c" "docx"
             "0a1b" {[ "uploads/0a1b.pdf" := "%PDF" ]}); reflexivity.
Defined.

End MoreExamples.

Section TokenExamples.
Import Tokens TokenExample.

Lemma save_then_verify_witness :
  (save_password_reset_token "bob@example.org" "tok-3" 150 reissued).1 = true
  ∧ (verify_password_reset_token "tok-3" 149 shared).1 = Some "bob@example.org"
  ∧ (verify_password_reset_token "tok-3" 150 shared).1 = None.
Proof.
  assert (∀ r, r ∈ tokens reissued → token_token r ≠ "tok-3") as Hfree.
  { intros r Hr. vm_compute in Hr.
    repeat (apply elem_of_cons in Hr as [->|Hr]; [discriminate|]).
    by apply not_elem_of_nil in Hr. }
  destruct (TokenFacts.save_then_verify "bob@example.org" "tok-3" 150 149
              reissued Hfree) as (Hsaved & Hbefore & _).
  destruct (TokenFacts.save_then_verify "bob@example.org" "tok-3" 150 150
              reissued Hfree) as (_ & _ & Hafter).
  split; [exact Hsaved|]. split; [apply Hbefore | apply Hafter]; lia.
Defined.

Lemma save_supersedes_witness :
  (save_password_reset_token "alice@example.org" "tok-2" 200 issued).1 = true
  ∧ (verify_password_reset_token "tok-1" 50 issued).1 = Some "alice@example.org"
  ∧ (verify_password_reset_token "tok-1" 50 reissued).1 ≠ Some "alice@example.org".
Proof.
  split; [reflexivity|]. split; [reflexivity|]. intros Hold.
  pose proof (TokenFacts.save_supersedes "alice@example.org" "tok-2" 200 issued
                eq_refl "tok-1" 50 Hold) as Hsame.
  discriminate Hsame.
Defined.

Lemma save_duplicate_rolls_back_witness :
  first_token ∈ tokens reissued
  ∧ save_password_reset_token "bob@example.org" "tok-1" 300 reissued =
      (false, reissued).
Proof.
  assert (first_token ∈ tokens reissued) as Hin by (vm_compute; left).
  split; [exact Hin|].
  apply (TokenFacts.save_duplicate_rolls_back "bob@example.org" "tok-1" 300
           reissued first_token Hin eq_refl).
Defined.

Lemma invalidate_frame_witness :
  (verify_password_reset_token "tok-3" 120 (invalidate_token "tok-2" shared).2).1 =
  Some "bob@example.org".
Proof.
  rewrite (TokenFacts.invalidate_frame "tok-2" "tok-3" 120 shared);
    [reflexivity|discriminate].
Defined.

Lemma save_frame_witness :
  (verify_password_reset_token "tok-2" 120 reissued).1 = Some "alice@example.org"
  ∧ (verify_password_reset_token "tok-2" 120 shared).1 = Some "alice@example.org".
Proof.
  split; [reflexivity|].
  apply (TokenFacts.save_frame "bob@example.org" "tok-3" "tok-2"
           "alice@example.org" 150 120 reissued); [reflexivity|discriminate].
Defined.

Lemma used_token_stays_used_witness :
  unique_tokens reissued ∧ first_token ∈ tokens reissued
  ∧ (verify_password_reset_token "tok-1" 50
       (foldl (λ t o, token_exec o t) reissued
          [OpSave "alice@example.org" "tok-1" 500;
           OpInvalidate "tok-2";
           OpSave "bob@example.org" "tok-3" 150])).1 = None.
Proof.
  assert (unique_tokens reissued) as Huniq.
  { unfold unique_tokens. vm_compute.
    repeat (apply NoDup_cons; split;
            [rewrite ?elem_of_cons; intros Hin; decompose [or] Hin;
             try discriminate; by eapply not_elem_of_nil|]).
    apply NoDup_nil_2. }
  assert (first_token ∈ tokens reissued) as Hin by (vm_compute; left).
  split; [exact Huniq|]. split; [exact Hin|].
  apply (TokenFacts.used_token_stays_used "tok-1" reissued first_token _ 50
           Huniq Hin eq_refl).
  discriminate.
Defined.

End TokenExamples.
